(** * gofilerd: the job table, the poll and submission handlers, the runner

    A shallow embedding of the job engine of package [main] (the job table
    [jobMap] with [get], [del], [put] and [clean], the handlers [getProfile]
    and [profile], [runProfiler], [generateRandomID]) and of the data types
    of [api/api.go], and of the HTTP layer above them (the wrappers
    [withGet], [withGetOrPost], [withToken], [withRequest],
    [withValidLanguage], [handle], [sendResponse] and the two routes of
    [main]).

    Conventions of the embedding.
    - Go's [int], [uint] and [time.Duration] are 64-bit; the conversions
      [int(maxJobs)] and [time.Duration(timeout) * time.Minute] are written
      with their wrap-around.
    - A Go map is a [gmap]; the nil map of a zero [jobMap] is [None].
    - A [time.Time] is the reading of the monotonic clock in nanoseconds,
      [Add] is addition and [After] is [>].
    - Channels live in a store shared by the table, the pollers and the
      runners; a [job] holds the name of its channel, not a copy.
    - The [sync.RWMutex] of the table serialises the methods; every method
      is one atomic state transformer here.
    - An [http.ResponseWriter] is the list of the calls made on it; the
      codecs (JSON, gzip) and the lookups of package [gofiler] are
      parameters. *)

From Stdlib Require Import ZArith Lia.
From stdpp Require Import gmap strings list fin_maps.

(** ** Machine integers *)

Definition wrap_int64 (z : Z) : Z := ((z + 2 ^ 63) mod 2 ^ 64 - 2 ^ 63)%Z.

(** [int(u)] for [u : uint]. *)
Definition int_of_uint (u : N) : Z := wrap_int64 (Z.of_N u).

(** [time.Minute], in nanoseconds. *)
Definition time_Minute : Z := 60000000000%Z.

(** [time.Time]: monotonic nanoseconds; the zero [Time] is [0]. *)
Definition Time := Z.
Definition time_Add (t : Time) (d : Z) : Time := (t + d)%Z.
Definition time_After (t u : Time) : bool := (u <? t)%Z.

(** Go's [error] interface: [nil] or a message. *)
Definition error := string.

(** ** api/api.go *)

Record Token := mkToken { ID : string }.

Definition Token_String (t : Token) : string := ID t.

(** ** Streams to run the model on *)

(** Thirty-two equal draws in a row: two identifiers of [generateRandomID]
    out of three coincide. *)
Definition demo_rand (i : nat) : nat := i / 32.

Definition demo_clock (i : nat) : Time := Z.of_nat i.

Definition demo_Run (config : string) (tokens : list string)
  : string * option error := ("P", None).

(** Sixteen equal draws in a row: every identifier differs from the one
    before. *)
Definition demo_rand_fresh (i : nat) : nat := i / 16.

(** Forty-eight equal draws in a row: three identifiers in a row
    coincide. *)
Definition demo_rand_twice (i : nat) : nat := i / 48.

(** A stream that yields the same identifier for ever. *)
Definition demo_rand_stuck (i : nat) : nat := 0.

(** A clock that advances by a hundred seconds from one reading to the
    next. *)
Definition demo_clock_slow (i : nat) : Time := (Z.of_nat i * 100000000000)%Z.

Section Gofilerd.

(** [gofiler.Profile] and [gofiler.Token] belong to an imported package;
    only the zero value of the former is needed. *)
Context {GProfile : Type} (zeroProfile : GProfile) {GToken : Type}.

(** The flags [-max-jobs] and [-timeout], fixed once [main] has parsed
    them. *)
Context (maxJobs : N) (timeout : N).

(** [math/rand]: the stream of raw draws; [time.Now]: the stream of clock
    readings. The position in each stream is part of the state. *)
Context (rand_source : nat → nat) (time_Now : nat → Time).

(** [gofiler.Run] under the deadline of [runProfiler]: the profile or the
    error (deadline exceeded included) it returns for a configuration and a
    list of tokens. *)
Context (gofiler_Run : string → list GToken → GProfile * option error).

Record Profile := mkProfile {
  Profile_Profile : GProfile;
  Profile_Token : Token;
  Profile_Language : string;
  Profile_Status : string;
  Profile_Done : bool
}.

Record Request := mkRequest {
  Request_Language : string;
  Request_Tokens : list GToken
}.

(** ** The job table *)

Record result := mkResult { res_profile : GProfile; res_err : option error }.

(** A channel value: [None] is the nil channel, [Some c] names a channel
    of the store. *)
Definition chan := option nat.

Record job := mkJob {
  pending : chan;
  language : string;
  start : Time
}.

Definition zero_result : result := mkResult zeroProfile None.
Definition zero_job : job := mkJob None "" 0%Z.

Record jobMap := mkJobMap { m : option (gmap string job) }.

(** The package variable [jobs] before any request. *)
Definition jobs_zero : jobMap := mkJobMap None.

(** What reading [m.m] sees: a nil map reads as the empty map. *)
Definition entries (jm : jobMap) : gmap string job := default ∅ (m jm).

(** [len(m.m)] *)
Definition len (jm : jobMap) : Z := Z.of_nat (size (entries jm)).

(** A method with receiver [*jobMap]: result and receiver afterwards. *)
Definition method (A : Type) : Type := jobMap → A * jobMap.

Definition get (token : string) : method (job * bool) := λ jm,
  match entries jm !! token with
  | Some pp => ((pp, true), jm)
  | None => ((zero_job, false), jm)
  end.

(** [delete] on a nil map does nothing and leaves it nil. *)
Definition del (token : string) : method unit := λ jm,
  (tt, mkJobMap (delete token <$> m jm)).

Inductive putResult := putJobOK | putJobNotUnique | putJobFull.

#[global] Instance putResult_eq_dec : EqDecision putResult.
Proof. solve_decision. Defined.

(** The capacity the table compares against: [int(maxJobs)]. *)
Definition capacity : Z := int_of_uint maxJobs.

(** [now] is the reading [time.Now()] takes on the inserting path. *)
Definition put (language token : string) (pchan : chan) (now : Time)
  : method putResult := λ jm,
  let mm := match m jm with
            | None => ∅
            | Some mm => mm
            end in
  if (capacity <=? Z.of_nat (size mm))%Z then (putJobFull, mkJobMap (Some mm))
  else match mm !! token with
       | Some _ => (putJobNotUnique, mkJobMap (Some mm))
       | None =>
           (putJobOK,
            mkJobMap (Some (<[token := mkJob pchan language now]> mm)))
       end.

(** [time.Duration(timeout) * time.Minute] *)
Definition delta : Z := wrap_int64 (wrap_int64 (Z.of_N timeout) * time_Minute).

Definition timed_out (now : Time) (j : job) : bool :=
  time_After now (time_Add (start j) delta).

(** The first loop of [clean]: the tokens collected for deletion. *)
Definition forDeletion (now : Time) (jm : jobMap) : list string :=
  (filter (λ kv, timed_out now kv.2 = true) (map_to_list (entries jm))).*1.

(** [now] is the reading of [time.Now()] at line 310. *)
Definition clean (now : Time) : method unit := λ jm,
  (tt, mkJobMap ((λ mm, foldl (λ acc token, delete token acc) mm
                          (forDeletion now jm)) <$> m jm)).

(** ** Sequences of table operations *)

Inductive op :=
| OpPut (language token : string) (pchan : chan) (now : Time)
| OpDel (token : string)
| OpClean (now : Time).

Definition apply_op (jm : jobMap) (o : op) : jobMap :=
  match o with
  | OpPut language token pchan now => (put language token pchan now jm).2
  | OpDel token => (del token jm).2
  | OpClean now => (clean now jm).2
  end.

Definition run_ops (ops : list op) (jm : jobMap) : jobMap :=
  foldl apply_op jm ops.


(** ** Channels and the runner *)

(** An unbuffered [chan result], seen from its two ends: no sender parked,
    a sender parked with its value, or closed. *)
Inductive chan_state :=
| ChEmpty
| ChReady (r : result)
| ChClosed.

(** What a goroutine does to a channel. *)
Inductive chan_event :=
| EvSend (r : result)
| EvClose.

(** Where a call of [runProfiler] stands: before the send (the deferred
    [close] registered, [gofiler.Run] under way), parked in
    [pchan <- result{...}], past the send with the deferred [close] still to
    run, returned. *)
Inductive runner_pc :=
| PcRun
| PcParked (r : result)
| PcClose
| PcExit.

Record goroutine := mkGo {
  go_config : string;
  go_tokens : list GToken;
  go_pchan : chan;
  go_pc : runner_pc
}.

Definition at_pc (g : goroutine) (pc : runner_pc) : goroutine :=
  mkGo (go_config g) (go_tokens g) (go_pchan g) pc.

(** [go runProfiler(config, tokens, pchan)] *)
Definition runProfiler (config : string) (tokens : list GToken) (pchan : chan)
  : goroutine := mkGo config tokens pchan PcRun.

(** The value [runProfiler] builds from what [gofiler.Run] returns. *)
Definition run_result (g : goroutine) : result :=
  let (p, err) := gofiler_Run (go_config g) (go_tokens g) in mkResult p err.

(** One step of [runProfiler] on its channel; [None] when the goroutine
    cannot move (parked until a receiver takes the value, or returned; a
    send on or a close of a closed channel panics and is left without a
    step). *)
Definition runner_step (g : goroutine) (cs : chan_state)
  : option (goroutine * chan_state * list chan_event) :=
  match go_pc g, cs with
  | PcRun, ChEmpty =>
      let r := run_result g in
      Some (at_pc g (PcParked r), ChReady r, [EvSend r])
  | PcParked _, ChEmpty => Some (at_pc g PcClose, ChEmpty, [])
  | PcClose, ChEmpty => Some (at_pc g PcExit, ChClosed, [EvClose])
  | _, _ => None
  end.

(** The other end: a receiver takes the value of the parked sender. *)
Definition receiver_step (cs : chan_state) : option (result * chan_state) :=
  match cs with
  | ChReady r => Some (r, ChEmpty)
  | ChClosed => Some (zero_result, ChClosed)
  | ChEmpty => None
  end.

(** The channel events a runner at a given point still has to emit. *)
Definition todo (g : goroutine) : list chan_event :=
  match go_pc g with
  | PcRun => [EvSend (run_result g); EvClose]
  | PcParked _ | PcClose => [EvClose]
  | PcExit => []
  end.

(** The states a runner and its channel go through. *)
Definition runner_wf (g : goroutine) (cs : chan_state) : Prop :=
  match go_pc g, cs with
  | PcRun, ChEmpty => True
  | PcParked r, ChReady r' => r = run_result g ∧ r' = r
  | PcParked r, ChEmpty => r = run_result g
  | PcClose, ChEmpty => True
  | PcExit, ChClosed => True
  | _, _ => False
  end.

(** ** The process state *)

Record World := mkWorld {
  jobs : jobMap;
  chans : gmap nat chan_state;
  goroutines : list goroutine;
  draws : nat;
  ticks : nat
}.

Definition World_zero : World := mkWorld jobs_zero ∅ [] 0 0.

Definition with_jobs (jm : jobMap) (w : World) : World :=
  mkWorld jm (chans w) (goroutines w) (draws w) (ticks w).
Definition with_chans (cs : gmap nat chan_state) (w : World) : World :=
  mkWorld (jobs w) cs (goroutines w) (draws w) (ticks w).
Definition with_goroutines (gs : list goroutine) (w : World) : World :=
  mkWorld (jobs w) (chans w) gs (draws w) (ticks w).
Definition with_draws (n : nat) (w : World) : World :=
  mkWorld (jobs w) (chans w) (goroutines w) n (ticks w).
Definition with_ticks (n : nat) (w : World) : World :=
  mkWorld (jobs w) (chans w) (goroutines w) (draws w) n.

(** [time.Now()] *)
Definition now (w : World) : Time * World :=
  (time_Now (ticks w), with_ticks (S (ticks w)) w).

(** [rand.Intn(n)] *)
Definition rand_Intn (n : nat) (w : World) : nat * World :=
  (rand_source (draws w) mod n, with_draws (S (draws w)) w).

(** [make(chan result)] *)
Definition make_chan (w : World) : chan * World :=
  let c := fresh (dom (chans w)) in
  (Some c, with_chans (<[c := ChEmpty]> (chans w)) w).

(** The methods called on the package variable [jobs]. *)
Definition jobs_get (token : string) (w : World) : (job * bool) * World :=
  let (r, jm) := get token (jobs w) in (r, with_jobs jm w).

Definition jobs_del (token : string) (w : World) : World :=
  with_jobs (del token (jobs w)).2 w.

Definition jobs_put (language token : string) (pchan : chan) (w : World)
  : putResult * World :=
  let (res, jm) := put language token pchan (time_Now (ticks w)) (jobs w) in
  (res, with_jobs jm (match res with
                      | putJobOK => with_ticks (S (ticks w)) w
                      | _ => w
                      end)).

Definition jobs_clean (w : World) : World :=
  let (t, w1) := now w in with_jobs (clean t (jobs w1)).2 w1.

(** A receive [<-c] that is ready: the value and the state afterwards;
    [None] when it is not ready (the nil channel never is). *)
Definition recv (c : chan) (w : World) : option (result * World) :=
  match c with
  | None => None
  | Some n =>
      match chans w !! n with
      | None => None
      | Some cs =>
          match receiver_step cs with
          | None => None
          | Some (r, cs') => Some (r, with_chans (<[n := cs']> (chans w)) w)
          end
      end
  end.

(** The scheduler lets goroutine [i] take one step. *)
Definition step_goroutine (i : nat) (w : World)
  : option (World * list chan_event) :=
  match goroutines w !! i with
  | None => None
  | Some g =>
      match go_pchan g with
      | None => None
      | Some n =>
          match chans w !! n with
          | None => None
          | Some cs =>
              match runner_step g cs with
              | None => None
              | Some (g', cs', evs) =>
                  Some (with_goroutines (<[i := g']> (goroutines w))
                          (with_chans (<[n := cs']> (chans w)) w), evs)
              end
          end
      end
  end.

(** ** The handlers *)

(** What a handler hands back to [handle]: an HTTP status, an error, or a
    value to encode. *)
Inductive response :=
| RespStatus (code : Z)
| RespError (e : error)
| RespProfile (p : Profile)
| RespToken (t : Token).

Definition http_StatusNotFound : Z := 404%Z.
Definition http_StatusServiceUnavailable : Z := 503%Z.

(** A call either returns, or parks in a receive that is not ready. *)
Inductive outcome (A : Type) :=
| Returned (a : A) (w : World)
| Blocked.
Arguments Returned {A} a w.
Arguments Blocked {A}.

Definition verbs : list string :=
  ["eating"; "smelling"; "seeing"; "kicking"; "liking"; "tasting"; "licking"].
Definition adjectives : list string :=
  ["sweet"; "old"; "dead"; "tiny"; "small"; "bitter"; "cold"].
Definition nouns : list string :=
  ["pancakes"; "farts"; "people"; "kittens"; "feet"; "ashes"; "steel"].

(** Lines 347-356 of [getProfile], the statements that follow the
    [select]: the answer for a job that is not done yet. *)
Definition notDoneYet (token : Token) (w : World) : response * World :=
  let (v, w1) := rand_Intn (length verbs) w in
  let (a, w2) := rand_Intn (length adjectives) w1 in
  let (n, w3) := rand_Intn (length nouns) w2 in
  (RespProfile
     (mkProfile zeroProfile token ""
        (nth v verbs "" +:+ " " +:+ nth a adjectives "" +:+ " " +:+
         nth n nouns "")
        false),
   w3).

(** The case body of the [select] (lines 334-345); the deferred [jobs.del]
    runs on either return. *)
Definition deliver (token : Token) (j : job) (p : result) (w : World)
  : response * World :=
  let w' := jobs_del (ID token) w in
  match res_err p with
  | Some e => (RespError e, w')
  | None =>
      (RespProfile
         (mkProfile (res_profile p) token (language j) "done" true), w')
  end.

(** The [select] of [getProfile] has the single case [p := <-job.pending]
    and no [default]: it takes the value when the receive is ready and parks
    otherwise. Its case body returns, so no path leads from the [select] to
    the statements after it ([notDoneYet]). *)
Definition getProfile (token : Token) (w : World) : outcome response :=
  let '((j, ok), w0) := jobs_get (ID token) w in
  if negb ok then Returned (RespStatus http_StatusNotFound) w0
  else
    match recv (pending j) w0 with
    | Some (p, w1) =>
        let (x, w2) := deliver token j p w1 in Returned x w2
    | None => Blocked
    end.

Definition letters : list Ascii.ascii :=
  String.list_ascii_of_string
    "abcdefghijklmnopqrstuvwxyzABCDEFGHIJKLMNOPQRSTUVWXYZ0123456789".

(** The loop of [generateRandomID]: [n] letters drawn one after the
    other. *)
Fixpoint randomLetters (n : nat) (w : World) : list Ascii.ascii * World :=
  match n with
  | O => ([], w)
  | S n' =>
      let (k, w1) := rand_Intn (length letters) w in
      let (rest, w2) := randomLetters n' w1 in
      (nth k letters Ascii.zero :: rest, w2)
  end.

Definition generateRandomID (w : World) : string * World :=
  let (id, w') := randomLetters 16 w in (String.string_of_list_ascii id, w').

(** [go f]: the goroutine joins the ones the scheduler may step. *)
Definition go (g : goroutine) (w : World) : World :=
  with_goroutines (goroutines w ++ [g]) w.

(** The [for] loop of [profile] (lines 366-379); [fuel] bounds the number of
    iterations, [None] is a loop still running when it is used up. *)
Fixpoint profile_loop (fuel : nat) (path : string) (request : Request)
    (pchan : chan) (w : World) : option (response * World) :=
  match fuel with
  | O => None
  | S fuel' =>
      let (id, w1) := generateRandomID w in
      let (res, w2) := jobs_put (Request_Language request) id pchan w1 in
      match res with
      | putJobOK =>
          Some (RespToken (mkToken id),
                go (runProfiler path (Request_Tokens request) pchan) w2)
      | putJobFull => Some (RespStatus http_StatusServiceUnavailable, w2)
      | putJobNotUnique => profile_loop fuel' path request pchan w2
      end
  end.

Definition profile (fuel : nat) (path : string) (request : Request) (w : World)
  : option (response * World) :=
  let (pchan, w0) := make_chan w in
  let w1 := jobs_clean w0 in
  profile_loop fuel path request pchan w1.

(** [n] polls of one token in a row, each on the state the one before
    left; the polls stop at one that parks. *)
Fixpoint polls (n : nat) (token : Token) (w : World) : list (outcome response) :=
  match n with
  | O => []
  | S n' =>
      match getProfile token w with
      | Returned x w' => Returned x w' :: polls n' token w'
      | Blocked => [Blocked]
      end
  end.

(** The letters [generateRandomID] draws from position [d] of the stream. *)
Fixpoint letters_from (n d : nat) : list Ascii.ascii :=
  match n with
  | O => []
  | S n' =>
      nth (rand_source d mod length letters) letters Ascii.zero
        :: letters_from n' (S d)
  end.

(** The [n]-th identifier [generateRandomID] yields from [w] on. *)
Definition nth_id (n : nat) (w : World) : string :=
  String.string_of_list_ascii (letters_from 16 (draws w + 16 * n)).

(** What the loop of [profile] has done after at most [fuel] turns, in
    terms of the answers of [put] on the table it started from. *)
Definition loop_outcome (fuel : nat) (path : string) (request : Request)
    (pchan : chan) (w : World) (o : option (response * World)) : Prop :=
  let try i :=
    put (Request_Language request) (nth_id i w) pchan (time_Now (ticks w))
      (jobs w) in
  match o with
  | None => ∀ i, i < fuel → (try i).1 = putJobNotUnique
  | Some (resp, w') =>
      ∃ i, i < fuel ∧
        (∀ i', i' < i → (try i').1 = putJobNotUnique) ∧
        jobs w' = (try i).2 ∧
        match (try i).1 with
        | putJobFull =>
            resp = RespStatus http_StatusServiceUnavailable ∧
            goroutines w' = goroutines w
        | putJobOK =>
            resp = RespToken (mkToken (nth_id i w)) ∧
            goroutines w' =
              goroutines w ++ [runProfiler path (Request_Tokens request) pchan]
        | putJobNotUnique => False
        end
  end.

(** ** A scenario: one submission, then its runner reaches the send *)

Definition after (o : option (response * World)) : World :=
  match o with
  | Some (_, w) => w
  | None => World_zero
  end.

Definition scenario_request : Request := mkRequest "eng" [].

Definition scenario_submitted : World :=
  after (profile 1 "cfg" scenario_request World_zero).

Definition scenario_offered : World :=
  match step_goroutine 0 scenario_submitted with
  | Some (w, _) => w
  | None => scenario_submitted
  end.

(** ** The HTTP layer *)

(** [strings.Contains(s, substr)] of Go's library: [substr] occurs in
    [s]. *)
Fixpoint strings_Contains (s substr : string) : bool :=
  String.prefix substr s ||
  match s with
  | EmptyString => false
  | String _ s' => strings_Contains s' substr
  end.

(** [http.Header] and [url.Values]: the values of each key, in order. *)
Definition http_Header := gmap string (list string).

(** [url.Values.Get]: the first value of the key, or the empty string. *)
Definition url_Values_Get (q : gmap string (list string)) (key : string)
  : string :=
  match q !! key with
  | Some (v :: _) => v
  | _ => ""
  end.

(** The fields of [*http.Request] the handlers read; [Reader] is what the
    body is read from. *)
Context {Reader : Type}.

Record http_Request := mkHttpRequest {
  Method : string;
  URL_Query : gmap string (list string);
  Header : http_Header;
  Body : Reader
}.

(** [gzip.NewReader] (its error is [None]) and [json.NewDecoder(r).Decode]
    into an [api.Request] (its error is [None]). *)
Context (gzip_NewReader : Reader → option Reader).
Context (json_Decode : Reader → option Request).

(** [gofiler.LanguageConfiguration], the flag [-backend], the two lookups
    of package [gofiler] and its sentinel error. *)
Record LanguageConfiguration := mkLanguageConfiguration {
  Language : string;
  Path : string
}.

Context (backend : string).
Context (gofiler_FindLanguage
  : string → string → LanguageConfiguration * option error).
Context (gofiler_ErrorLanguageNotFound : error).
Context (gofiler_ListLanguages
  : string → list LanguageConfiguration * option error).

Record Languages := mkLanguages { Languages_Languages : list string }.

(** The values that travel as [interface{}] from the handlers to
    [handle]. *)
Inductive any :=
| AnyResponse (x : response)
| AnyLanguages (ls : Languages).

(** A call of a handler: out of fuel ([None]), parked, or returned. *)
Definition served (A : Type) : Type := option (outcome A).

Definition serve {A} (a : A) (w : World) : served A := Some (Returned a w).

Definition status (code : Z) (w : World) : served any :=
  serve (AnyResponse (RespStatus code)) w.

Definition http_StatusBadRequest : Z := 400%Z.
Definition http_StatusMethodNotAllowed : Z := 405%Z.
Definition http_StatusInternalServerError : Z := 500%Z.
Definition http_MethodGet : string := "GET".
Definition http_MethodPost : string := "POST".
Definition api_Version : string := "1.0".

(** What a handler does to its [http.ResponseWriter], call by call. *)
Inductive rw_call :=
| Header_Set (key value : string)
| http_Error (msg : string) (code : Z)
| Write (data : string).

(** An [http.ResponseWriter]: the calls made on it so far. *)
Definition ResponseWriter := list rw_call.

(** [json.NewEncoder(w).Encode(x)]: the bytes it writes, [None] on an
    error; the bytes a [gzip.Writer] has written once closed. *)
Context (json_Encode : any → option string).
Context (gzip_compress : string → string).

Definition handler : Type :=
  ResponseWriter → http_Request → World → served any.

Definition withLogging {A}
    (h : ResponseWriter → http_Request → World → served A)
  : ResponseWriter → http_Request → World → served A := h.

Definition withGet (h : handler) : handler := λ rw r w,
  if decide (Method r ≠ http_MethodGet)
  then status http_StatusMethodNotAllowed w
  else h rw r w.

Definition withGetOrPost (get post : handler) : handler := λ rw r w,
  if decide (Method r = http_MethodGet) then get rw r w
  else if decide (Method r = http_MethodPost) then post rw r w
  else status http_StatusMethodNotAllowed w.

Definition containsVal (header : http_Header) (key val : string) : bool :=
  existsb (λ v, strings_Contains v val) (default [] (header !! key)).

(** [encodeJSON(w, x)]: the data of the [Write] calls the encoder makes on
    its writer, none when encoding fails (the error is only logged). *)
Definition encodeJSON (x : any) : list string :=
  match json_Encode x with
  | Some data => [data]
  | None => []
  end.

(** With gzip the encoder writes into the [gzip.Writer], whose deferred
    [Close] writes the compressed stream of what it was given; without, the
    encoder writes to [w] itself. *)
Definition sendResponse (rw : ResponseWriter) (r : http_Request) (x : any)
  : ResponseWriter :=
  let rw1 :=
    rw ++ [Header_Set "Content-Type" "application/json; charset=utf-8";
           Header_Set "Server" ("gofilerd/" +:+ api_Version)] in
  if containsVal (Header r) "Accept-Encoding" "gzip"
  then rw1 ++ [Header_Set "Content-Encoding" "gzip";
               Write (gzip_compress (String.concat "" (encodeJSON x)))]
  else rw1 ++ (Write <$> encodeJSON x).

Definition handle (h : handler)
  : ResponseWriter → http_Request → World → served ResponseWriter :=
  λ rw r w,
  match h rw r w with
  | None => None
  | Some Blocked => Some Blocked
  | Some (Returned x w') =>
      serve (match x with
             | AnyResponse (RespStatus t) => rw ++ [http_Error "" t]
             | AnyResponse (RespError _) =>
                 rw ++ [http_Error "" http_StatusInternalServerError]
             | _ => sendResponse rw r x
             end) w'
  end.

Definition decodeJSON (r : Reader) (h : Request → World → served any)
  : World → served any := λ w,
  match json_Decode r with
  | None => status http_StatusBadRequest w
  | Some data => h data w
  end.

Definition withRequest (h : Request → World → served any) : handler :=
  λ rw r w,
  if negb (containsVal (Header r) "Content-Type" "application/json") ||
     negb (containsVal (Header r) "Content-Type" "charset=utf-8")
  then status http_StatusBadRequest w
  else if containsVal (Header r) "Content-Encoding" "gzip"
  then match gzip_NewReader (Body r) with
       | None => status http_StatusBadRequest w
       | Some reader => decodeJSON reader h w
       end
  else decodeJSON (Body r) h w.

Definition withValidLanguage (h : string → Request → World → served any)
  : Request → World → served any := λ request w,
  let (lc, err) := gofiler_FindLanguage backend (Request_Language request) in
  if decide (err = Some gofiler_ErrorLanguageNotFound)
  then status http_StatusNotFound w
  else match err with
       | Some e => serve (AnyResponse (RespError e)) w
       | None => h (Path lc) request w
       end.

Definition withToken (h : Token → World → served any) : handler := λ rw r w,
  let id := url_Values_Get (URL_Query r) "token" in
  if decide (id = "") then status http_StatusBadRequest w
  else h (mkToken id) w.

Definition getLanguages : handler := λ rw r w,
  let (lcs, err) := gofiler_ListLanguages backend in
  match err with
  | Some e => serve (AnyResponse (RespError e)) w
  | None => serve (AnyLanguages (mkLanguages (Language <$> lcs))) w
  end.

(** [getProfile] and [profile] as the values of type [interface{}]-returning
    functions that [main] hands to the wrappers. *)
Definition getProfile_handler (token : Token) (w : World) : served any :=
  match getProfile token w with
  | Returned x w' => serve (AnyResponse x) w'
  | Blocked => Some Blocked
  end.

Definition profile_handler (fuel : nat) (path : string) (request : Request)
    (w : World) : served any :=
  match profile fuel path request w with
  | Some (x, w') => serve (AnyResponse x) w'
  | None => None
  end.

(** The two routes [main] registers. *)
Definition route_languages
  : ResponseWriter → http_Request → World → served ResponseWriter :=
  withLogging (handle (withGet getLanguages)).

Definition route_profile (fuel : nat)
  : ResponseWriter → http_Request → World → served ResponseWriter :=
  withLogging
    (handle
       (withGetOrPost
          (withToken getProfile_handler)
          (withRequest (withValidLanguage (profile_handler fuel))))).

(** The ways the handlers of the route /profile hand a value to [handle]:
    a request turned away with the process untouched; a submission turned
    away by a full table; an error; the token of an admitted job; the profile
    of a finished one. *)
Definition profile_answer (r : http_Request) (w w' : World) (x : any) : Prop :=
  (∃ code, x = AnyResponse (RespStatus code) ∧ w' = w ∧
     (code = http_StatusBadRequest ∨ code = http_StatusNotFound ∨
      code = http_StatusMethodNotAllowed)) ∨
  x = AnyResponse (RespStatus http_StatusServiceUnavailable) ∨
  (∃ e, x = AnyResponse (RespError e)) ∨
  (∃ t, x = AnyResponse (RespToken t) ∧ Method r = http_MethodPost ∧
        String.length (ID t) = 16 ∧ is_Some (entries (jobs w') !! ID t)) ∨
  (∃ p, x = AnyResponse (RespProfile p) ∧ Method r = http_MethodGet ∧
        Profile_Done p = true ∧
        ID (Profile_Token p) = url_Values_Get (URL_Query r) "token" ∧
        entries (jobs w') !! ID (Profile_Token p) = None).

(** ** Requests served one after the other *)

(** One move of the process: a submission or a poll handled from start to
    end, or one step of a runner. A poll that parks is no move. *)
Inductive sys_step (w : World) : World → Prop :=
| step_submit fuel path request resp w' :
    profile fuel path request w = Some (resp, w') → sys_step w w'
| step_poll token x w' :
    getProfile token w = Returned x w' → sys_step w w'
| step_runner i w' evs :
    step_goroutine i w = Some (w', evs) → sys_step w w'.

Definition reachable (w : World) : Prop := rtc sys_step World_zero w.

(** A runner that a poll of its record would find: still before its send,
    or parked in it. *)
Definition awaited (w : World) (g : goroutine) (c : nat) : Prop :=
  go_pc g = PcRun ∨
  ∃ r, go_pc g = PcParked r ∧ chans w !! c = Some (ChReady r).

(** What holds of the process between two moves: every runner has a
    channel of its own, in a state that fits where the runner stands; every
    record has a channel of its own, with a runner on it that has not been
    received from; the table is within its capacity. *)
Record world_inv (w : World) : Prop := mkWorldInv {
  inv_runner : ∀ i g,
    goroutines w !! i = Some g →
    ∃ c cs, go_pchan g = Some c ∧ chans w !! c = Some cs ∧ runner_wf g cs;
  inv_runner_chan : ∀ i i' g g',
    goroutines w !! i = Some g → goroutines w !! i' = Some g' →
    go_pchan g = go_pchan g' → i = i';
  inv_record : ∀ token j,
    entries (jobs w) !! token = Some j →
    ∃ i g c,
      goroutines w !! i = Some g ∧ go_pchan g = Some c ∧ pending j = Some c ∧
      awaited w g c;
  inv_record_chan : ∀ token token' j j',
    entries (jobs w) !! token = Some j → entries (jobs w) !! token' = Some j' →
    pending j = pending j' → token = token';
  inv_len : (len (jobs w) ≤ Z.of_N maxJobs)%Z
}.

(** A runner left behind: parked in its send with its result on the
    channel, while no record of the table names that channel. *)
Definition orphaned (w : World) (i c : nat) (r : result) : Prop :=
  (∃ g, goroutines w !! i = Some g ∧ go_pchan g = Some c ∧
        go_pc g = PcParked r) ∧
  chans w !! c = Some (ChReady r) ∧
  ∀ token j, entries (jobs w) !! token = Some j → pending j ≠ Some c.

(** ** Runs of the process and what goes over the channels *)

(** A move the process is asked to make: handle a submission, handle a
    poll, let goroutine [i] take a step. A move that cannot be made (a poll
    that parks, a runner that is parked or has returned, a submission still
    looping when its fuel is used up) leaves the process as it is. *)
Inductive move :=
| MSubmit (fuel : nat) (path : string) (request : Request)
| MPoll (token : Token)
| MRun (i : nat).

(** What happens on channel [c]: a runner places [r] in its send and
    parks; a poll takes [r] from the parked runner, which completes the
    send; the runner closes the channel. *)
Inductive wire_event :=
| WSend (c : nat) (r : result)
| WRecv (c : nat) (r : result)
| WClose (c : nat).

Definition wire_chan (e : wire_event) : nat :=
  match e with
  | WSend c _ | WRecv c _ | WClose c => c
  end.

(** The events of a run that happened on channel [c]. *)
Definition on_chan (c : nat) (tr : list wire_event) : list wire_event :=
  filter (λ e, wire_chan e = c) tr.

Definition wire (c : nat) (e : chan_event) : wire_event :=
  match e with
  | EvSend r => WSend c r
  | EvClose => WClose c
  end.

(** What the receive of a poll of [token] takes from a parked runner. *)
Definition received (token : Token) (w : World) : list wire_event :=
  match entries (jobs w) !! ID token with
  | Some j =>
      match pending j with
      | Some c =>
          match chans w !! c with
          | Some (ChReady r) => [WRecv c r]
          | _ => []
          end
      | None => []
      end
  | None => []
  end.

Definition do_move (mv : move) (w : World) : World * list wire_event :=
  match mv with
  | MSubmit fuel path request =>
      match profile fuel path request w with
      | Some (_, w') => (w', [])
      | None => (w, [])
      end
  | MPoll token =>
      match getProfile token w with
      | Returned _ w' => (w', received token w)
      | Blocked => (w, [])
      end
  | MRun i =>
      match step_goroutine i w with
      | Some (w', evs) =>
          (w', match goroutines w !! i ≫= go_pchan with
               | Some c => wire c <$> evs
               | None => []
               end)
      | None => (w, [])
      end
  end.

(** The state after the moves [ms], made from [st.1] on in their order,
    and the events of the run so far. *)
Definition run_from (st : World * list wire_event) (ms : list move)
  : World * list wire_event :=
  foldl (λ st mv, let (w', evs) := do_move mv st.1 in (w', st.2 ++ evs)) st ms.

Definition run_moves (ms : list move) (w : World) : World * list wire_event :=
  run_from (w, []) ms.

(** The events on the channel [c] of runner [g] that match where the
    runner stands and the state [cs] of the channel: nothing before the
    send; the one result placed, and taken once the channel is empty again;
    the close once the runner has returned. *)
Definition wire_so_far (g : goroutine) (c : nat) (cs : chan_state)
  : list wire_event :=
  let r := run_result g in
  match go_pc g with
  | PcRun => []
  | PcParked _ =>
      match cs with
      | ChReady _ => [WSend c r]
      | _ => [WSend c r; WRecv c r]
      end
  | PcClose => [WSend c r; WRecv c r]
  | PcExit => [WSend c r; WRecv c r; WClose c]
  end.

(** The events of a run fit the state it has reached: on the channel of
    each runner they are the ones of [wire_so_far], and there are none on a
    channel that belongs to no runner. *)
Definition wire_inv (w : World) (tr : list wire_event) : Prop :=
  (∀ i g, goroutines w !! i = Some g →
     ∃ c cs, go_pchan g = Some c ∧ chans w !! c = Some cs ∧
       on_chan c tr = wire_so_far g c cs) ∧
  (∀ c, (∀ i g, goroutines w !! i = Some g → go_pchan g ≠ Some c) →
     on_chan c tr = []).

(** The state a poll leaves; the state itself when the poll parks. *)
Definition polled (token : Token) (w : World) : World :=
  match getProfile token w with
  | Returned _ w' => w'
  | Blocked => w
  end.

(** The state a step of goroutine [i] leaves. *)
Definition stepped (i : nat) (w : World) : World :=
  match step_goroutine i w with
  | Some (w', _) => w'
  | None => w
  end.

(** * Properties *)

(** ** Conversions *)

Lemma wrap_int64_le (z : Z) : (0 ≤ z → wrap_int64 z ≤ z)%Z.
Proof.
  intros Hz. unfold wrap_int64.
  assert (((z + 2 ^ 63) mod 2 ^ 64 ≤ z + 2 ^ 63)%Z) by (apply Z.mod_le; lia).
  lia.
Qed.

Lemma wrap_int64_small (z : Z) :
  (- 2 ^ 63 ≤ z < 2 ^ 63 → wrap_int64 z = z)%Z.
Proof.
  intros Hz. unfold wrap_int64. rewrite Z.mod_small; lia.
Qed.

Lemma capacity_le_maxJobs : (capacity ≤ Z.of_N maxJobs)%Z.
Proof. apply wrap_int64_le. lia. Qed.

Lemma delta_minutes :
  (Z.of_N timeout * time_Minute < 2 ^ 63)%Z →
  delta = (Z.of_N timeout * time_Minute)%Z.
Proof.
  intros Hlt. unfold delta, time_Minute in *.
  rewrite (wrap_int64_small (Z.of_N timeout)) by lia.
  apply wrap_int64_small. lia.
Qed.

(** ** The methods of the table *)

Lemma entries_put_mm (jm : jobMap) :
  match m jm with
  | None => ∅
  | Some mm => mm
  end = entries jm.
Proof. unfold entries. by destruct (m jm). Qed.

Lemma put_eq language token pchan t (jm : jobMap) :
  put language token pchan t jm =
    if (capacity <=? len jm)%Z then (putJobFull, mkJobMap (Some (entries jm)))
    else match entries jm !! token with
         | Some _ => (putJobNotUnique, mkJobMap (Some (entries jm)))
         | None =>
             (putJobOK,
              mkJobMap (Some (<[token := mkJob pchan language t]> (entries jm))))
         end.
Proof. unfold put, len. by rewrite entries_put_mm. Qed.

Lemma lookup_foldl_delete (l : list string) (mm : gmap string job) k :
  foldl (λ acc token, delete token acc) mm l !! k =
    if decide (k ∈ l) then None else mm !! k.
Proof.
  revert mm. induction l as [|x l IH]; intros mm; cbn [foldl].
  - case_decide as Hin; [|done]. by apply elem_of_nil in Hin.
  - rewrite IH. destruct (decide (k ∈ l)) as [Hl|Hl].
    + rewrite decide_True; [done|]. by apply list_elem_of_further.
    + destruct (decide (k = x)) as [->|Hne].
      * rewrite lookup_delete_eq, decide_True; [done|]. apply list_elem_of_here.
      * rewrite lookup_delete_ne by done. rewrite decide_False; [done|].
        intros [?|?]%elem_of_cons; done.
Qed.

Lemma elem_of_forDeletion t (jm : jobMap) k :
  k ∈ forDeletion t jm ↔ ∃ j, entries jm !! k = Some j ∧ timed_out t j = true.
Proof.
  unfold forDeletion. rewrite list_elem_of_fmap. split.
  - intros [[k' j] [-> [Hto Hin]%list_elem_of_filter]].
    apply elem_of_map_to_list in Hin. eauto.
  - intros (j & Hj & Hto). exists (k, j). split; [done|].
    apply list_elem_of_filter. split; [done|]. by apply elem_of_map_to_list.
Qed.

(** [clean] keeps exactly the entries that have not timed out. *)
Lemma entries_clean t (jm : jobMap) :
  entries (clean t jm).2 = filter (λ kv, timed_out t kv.2 = false) (entries jm).
Proof.
  apply map_eq. intros k. rewrite map_lookup_filter.
  unfold clean, entries at 1. simpl.
  destruct (m jm) as [mm|] eqn:Hm; simpl.
  - rewrite lookup_foldl_delete.
    assert (entries jm = mm) as Hmm by (unfold entries; by rewrite Hm).
    rewrite Hmm. case_decide as Hin.
    + apply elem_of_forDeletion in Hin as (j & Hj & Hto).
      rewrite Hmm in Hj. rewrite Hj. simpl.
      rewrite option_guard_False; [done|]. simpl. congruence.
    + destruct (mm !! k) as [j|] eqn:Hk; simpl; [|done].
      rewrite option_guard_True; [done|]. simpl.
      destruct (timed_out t j) eqn:Hto; [|done].
      exfalso. apply Hin, elem_of_forDeletion. exists j. by rewrite Hmm.
  - unfold entries. rewrite Hm. simpl. by rewrite lookup_empty.
Qed.

Lemma entries_del token (jm : jobMap) :
  entries (del token jm).2 = delete token (entries jm).
Proof.
  unfold del, entries. simpl. destruct (m jm); simpl; [done|].
  by rewrite delete_empty.
Qed.

Lemma len_del token (jm : jobMap) : (len (del token jm).2 ≤ len jm)%Z.
Proof.
  unfold len. rewrite entries_del.
  pose proof (map_subseteq_size _ _ (delete_subseteq (entries jm) token)). lia.
Qed.

Lemma len_clean t (jm : jobMap) : (len (clean t jm).2 ≤ len jm)%Z.
Proof.
  unfold len. rewrite entries_clean.
  pose proof (map_subseteq_size _ _
    (map_filter_subseteq (λ kv, timed_out t kv.2 = false) (entries jm))).
  lia.
Qed.

Lemma len_put language token pchan t (jm : jobMap) :
  (len jm ≤ Z.of_N maxJobs →
   len (put language token pchan t jm).2 ≤ Z.of_N maxJobs)%Z.
Proof.
  intros Hle. rewrite put_eq. pose proof capacity_le_maxJobs.
  destruct (capacity <=? len jm)%Z eqn:Hcap; [done|].
  apply Z.leb_gt in Hcap.
  destruct (entries jm !! token) eqn:Hk; [done|].
  unfold len, entries at 1. simpl.
  rewrite map_size_insert_None by done. unfold len in *. lia.
Qed.

Lemma capacity_eq_maxJobs :
  (Z.of_N maxJobs < 2 ^ 63)%Z → capacity = Z.of_N maxJobs.
Proof. intros Hlt. apply wrap_int64_small. lia. Qed.

(** C3: [put] answers [putJobFull] and leaves the entries alone when the
    size has reached the capacity; otherwise it answers [putJobNotUnique]
    and leaves the entries alone when the token is a key; otherwise it
    inserts the record made of the channel, the language and the current
    time under the token and answers [putJobOK]. *)
Theorem put_spec language token pchan t (jm : jobMap) :
  let (res, jm') := put language token pchan t jm in
  if decide (capacity ≤ len jm)%Z
  then res = putJobFull ∧ entries jm' = entries jm
  else if decide (is_Some (entries jm !! token))
       then res = putJobNotUnique ∧ entries jm' = entries jm
       else res = putJobOK ∧
            entries jm' = <[token := mkJob pchan language t]> (entries jm).
Proof.
  rewrite put_eq. case_decide as Hcap.
  - apply Z.leb_le in Hcap. by rewrite Hcap.
  - rewrite (proj2 (Z.leb_gt capacity (len jm))) by lia.
    case_decide as Hkey.
    + destruct Hkey as [j ->]. done.
    + apply eq_None_not_Some in Hkey. rewrite Hkey. done.
Qed.

Lemma put_at_capacity language token pchan t (jm : jobMap) :
  (Z.of_N maxJobs ≤ len jm)%Z →
  put language token pchan t jm = (putJobFull, mkJobMap (Some (entries jm))).
Proof.
  intros Hfull. rewrite put_eq. pose proof capacity_le_maxJobs.
  assert (capacity ≤ len jm)%Z as Hcap by lia.
  apply Z.leb_le in Hcap. by rewrite Hcap.
Qed.

(** C10: on a table that holds at least [maxJobs] entries [put] answers
    [putJobFull] for every token, a token that is a key included: the size
    is compared before the token is looked up. *)
Theorem put_full_before_unique language token pchan t (jm : jobMap) :
  (Z.of_N maxJobs ≤ len jm)%Z →
  (put language token pchan t jm).1 = putJobFull ∧
  entries (put language token pchan t jm).2 = entries jm.
Proof. intros Hfull. by rewrite put_at_capacity. Qed.

Lemma run_ops_snoc ops o (jm : jobMap) :
  run_ops (ops ++ [o]) jm = apply_op (run_ops ops jm) o.
Proof. unfold run_ops. by rewrite foldl_snoc. Qed.

Lemma len_apply_op o (jm : jobMap) :
  (len jm ≤ Z.of_N maxJobs → len (apply_op jm o) ≤ Z.of_N maxJobs)%Z.
Proof.
  intros Hle. destruct o as [language token pchan t|token|t]; cbn [apply_op].
  - by apply len_put.
  - pose proof (len_del token jm). lia.
  - pose proof (len_clean t jm). lia.
Qed.

(** C2: whatever [put], [del] and [clean] calls are made on the table of a
    fresh process, it never holds more than [maxJobs] entries; and a [put]
    on a table that holds [maxJobs] entries answers [putJobFull] and adds
    nothing. *)
Theorem capacity_invariant :
  (∀ ops, (len (run_ops ops jobs_zero) ≤ Z.of_N maxJobs)%Z) ∧
  (∀ language token pchan t (jm : jobMap),
     len jm = Z.of_N maxJobs →
     (put language token pchan t jm).1 = putJobFull ∧
     entries (put language token pchan t jm).2 = entries jm).
Proof.
  split.
  - induction ops as [|o ops IH] using rev_ind.
    + unfold run_ops, len, entries. simpl. rewrite map_size_empty. lia.
    + rewrite run_ops_snoc. by apply len_apply_op.
  - intros language token pchan t jm Hlen.
    rewrite put_at_capacity by lia. done.
Qed.

Lemma timed_out_spec t j : timed_out t j = true ↔ (t - start j > delta)%Z.
Proof.
  unfold timed_out, time_After, time_Add. rewrite Z.ltb_lt. lia.
Qed.

(** C5: after [clean] at time [t] an entry older than the timeout
    ([t - start > delta]) is gone, and an entry that is not older is there
    as it was. *)
Theorem clean_spec t (jm : jobMap) token j :
  entries jm !! token = Some j →
  ((t - start j > delta)%Z → entries (clean t jm).2 !! token = None) ∧
  ((t - start j ≤ delta)%Z → entries (clean t jm).2 !! token = Some j).
Proof.
  intros Hj. rewrite entries_clean. split; intros Hage.
  - apply map_lookup_filter_None. right. intros j' Hj'. simpl.
    assert (j' = j) as -> by congruence.
    apply timed_out_spec in Hage. by rewrite Hage.
  - apply map_lookup_filter_Some. split; [done|]. simpl.
    destruct (timed_out t j) eqn:Hto; [|done].
    apply timed_out_spec in Hto. lia.
Qed.

(** [clean] brings no entry in. *)
Lemma clean_absent t (jm : jobMap) token :
  entries jm !! token = None → entries (clean t jm).2 !! token = None.
Proof.
  intros Hn. rewrite entries_clean. apply map_lookup_filter_None. by left.
Qed.

(** C9: on the table no [put] has touched (its map is nil) [get] finds
    nothing, hands back the zero record and leaves the table as it is,
    [del] and [clean] leave it as it is, and a [put] always leaves a map
    that is not nil. *)
Theorem nil_map_safe token :
  get token jobs_zero = ((zero_job, false), jobs_zero) ∧
  del token jobs_zero = (tt, jobs_zero) ∧
  (∀ t, clean t jobs_zero = (tt, jobs_zero)) ∧
  (∀ language pchan t jm, m (put language token pchan t jm).2 ≠ None).
Proof.
  repeat split.
  intros language pchan t jm. rewrite put_eq.
  destruct (capacity <=? len jm)%Z; [done|].
  by destruct (entries jm !! token).
Qed.

(** ** Polling *)

Lemma with_jobs_id (w : World) : with_jobs (jobs w) w = w.
Proof. by destruct w. Qed.

Lemma entries_jobs_del token (w : World) :
  entries (jobs (jobs_del token w)) = delete token (entries (jobs w)).
Proof. unfold jobs_del, with_jobs. cbn [jobs]. apply entries_del. Qed.

(** A poll of a token the table does not hold. *)
Lemma getProfile_absent token (w : World) :
  entries (jobs w) !! ID token = None →
  getProfile token w = Returned (RespStatus http_StatusNotFound) w.
Proof.
  intros Hn. unfold getProfile, jobs_get, get. rewrite Hn. simpl.
  by rewrite with_jobs_id.
Qed.

(** A poll of a job whose runner has not reached its send parks. *)
Lemma getProfile_parks token (w : World) j c :
  entries (jobs w) !! ID token = Some j →
  pending j = Some c →
  chans w !! c = Some ChEmpty →
  getProfile token w = Blocked.
Proof.
  intros Hj Hc Hcs. unfold getProfile, jobs_get, get. rewrite Hj. simpl.
  rewrite with_jobs_id, Hc. unfold recv. by rewrite Hcs.
Qed.

(** No poll ever answers with a profile that is not done: the statements
    of [notDoneYet] are not reached. *)
Lemma getProfile_never_not_done token (w w' : World) p :
  getProfile token w = Returned (RespProfile p) w' → Profile_Done p = true.
Proof.
  unfold getProfile, jobs_get, get.
  destruct (entries (jobs w) !! ID token) as [j|]; simpl; [|done].
  destruct (recv (pending j) (with_jobs (jobs w) w)) as [[r w1]|]; [|done].
  unfold deliver. destruct (res_err r); [done|].
  intros [= <- _]. done.
Qed.

Lemma polls_absent n token (w : World) :
  entries (jobs w) !! ID token = None →
  polls n token w = replicate n (Returned (RespStatus http_StatusNotFound) w).
Proof.
  intros Hn. induction n as [|n IH]; [done|].
  cbn [polls replicate]. rewrite getProfile_absent by done. by rewrite IH.
Qed.

(** C4: the first poll of a job whose runner is parked in its send hands
    back the profile with [Done = true], or the error of the runner; either
    way the record is gone from the table, and every poll of the token that
    follows answers 404. *)
Theorem poll_completed token (w : World) j c r :
  entries (jobs w) !! ID token = Some j →
  pending j = Some c →
  chans w !! c = Some (ChReady r) →
  ∃ w',
    getProfile token w =
      Returned
        match res_err r with
        | Some e => RespError e
        | None =>
            RespProfile
              (mkProfile (res_profile r) token (language j) "done" true)
        end w' ∧
    entries (jobs w') = delete (ID token) (entries (jobs w)) ∧
    ∀ n, polls n token w' =
           replicate n (Returned (RespStatus http_StatusNotFound) w').
Proof.
  intros Hj Hc Hcs.
  exists (jobs_del (ID token) (with_chans (<[c := ChEmpty]> (chans w)) w)).
  split; [|split].
  - unfold getProfile, jobs_get, get. rewrite Hj. simpl.
    rewrite with_jobs_id, Hc. unfold recv. rewrite Hcs. simpl.
    unfold deliver. by destruct (res_err r).
  - by rewrite entries_jobs_del.
  - intros n. apply polls_absent. rewrite entries_jobs_del.
    apply lookup_delete_eq.
Qed.

(** ** The runner *)

Lemma runner_step_todo g cs g1 cs1 evs :
  runner_wf g cs →
  runner_step g cs = Some (g1, cs1, evs) →
  runner_wf g1 cs1 ∧ todo g = evs ++ todo g1.
Proof.
  unfold runner_wf, runner_step, todo.
  destruct g as [config tokens pchan pc]. cbn [go_pc].
  destruct pc as [|r| |], cs as [|r'|]; intros Hwf Hstep;
    try done; simplify_eq/=; done.
Qed.

(** ** Submission *)

Lemma randomLetters_eq n : ∀ w : World,
  randomLetters n w = (letters_from n (draws w), with_draws (draws w + n) w).
Proof.
  induction n as [|n IH]; intros w; cbn [randomLetters letters_from].
  - destruct w. unfold with_draws. cbn. by rewrite Nat.add_0_r.
  - unfold rand_Intn. rewrite IH. destruct w. unfold with_draws. cbn.
    do 3 f_equal. lia.
Qed.

Lemma generateRandomID_eq (w : World) :
  generateRandomID w = (nth_id 0 w, with_draws (draws w + 16) w).
Proof.
  unfold generateRandomID, nth_id. rewrite randomLetters_eq.
  by rewrite Nat.mul_0_r, Nat.add_0_r.
Qed.

Lemma nth_id_shift k (w : World) :
  nth_id k (with_draws (draws w + 16) w) = nth_id (S k) w.
Proof. unfold nth_id. cbn [draws with_draws]. f_equal. f_equal. lia. Qed.

Lemma lookup_Some_m (jm : jobMap) token j :
  entries jm !! token = Some j → mkJobMap (Some (entries jm)) = jm.
Proof.
  destruct jm as [[mm|]]; unfold entries; cbn; [done|].
  by rewrite lookup_empty.
Qed.

Lemma jobs_put_eq language token pchan (w : World) :
  jobs_put language token pchan w =
    if (capacity <=? len (jobs w))%Z
    then (putJobFull, with_jobs (mkJobMap (Some (entries (jobs w)))) w)
    else match entries (jobs w) !! token with
         | Some _ => (putJobNotUnique, w)
         | None =>
             (putJobOK,
              with_jobs
                (mkJobMap
                   (Some (<[token := mkJob pchan language (time_Now (ticks w))]>
                            (entries (jobs w)))))
                (with_ticks (S (ticks w)) w))
         end.
Proof.
  unfold jobs_put. rewrite put_eq.
  destruct (capacity <=? len (jobs w))%Z; [done|].
  destruct (entries (jobs w) !! token) as [j|] eqn:Hj; [|done].
  by rewrite (lookup_Some_m _ _ _ Hj), with_jobs_id.
Qed.

(** One turn of the loop of [profile]. *)
Lemma profile_loop_S fuel path request pchan (w : World) :
  profile_loop (S fuel) path request pchan w =
    let (res, w2) :=
      jobs_put (Request_Language request) (nth_id 0 w) pchan
        (with_draws (draws w + 16) w) in
    match res with
    | putJobOK =>
        Some (RespToken (mkToken (nth_id 0 w)),
              go (runProfiler path (Request_Tokens request) pchan) w2)
    | putJobFull => Some (RespStatus http_StatusServiceUnavailable, w2)
    | putJobNotUnique => profile_loop fuel path request pchan w2
    end.
Proof. cbn [profile_loop]. by rewrite generateRandomID_eq. Qed.

Lemma nth_id_0_draws (w : World) n :
  nth_id 0 (with_draws n w) = String.string_of_list_ascii (letters_from 16 n).
Proof.
  unfold nth_id. cbn [draws with_draws]. by rewrite Nat.mul_0_r, Nat.add_0_r.
Qed.

Lemma profile_loop_at_capacity path request pchan (w : World) fuel :
  (capacity ≤ len (jobs w))%Z →
  profile_loop (S fuel) path request pchan w =
    Some (RespStatus http_StatusServiceUnavailable,
          with_jobs (mkJobMap (Some (entries (jobs w))))
            (with_draws (draws w + 16) w)).
Proof.
  intros Hcap. rewrite profile_loop_S, jobs_put_eq. cbn [jobs with_draws].
  by rewrite (proj2 (Z.leb_le capacity (len (jobs w)))) by done.
Qed.

Lemma profile_loop_fresh path request pchan (w : World) fuel :
  (len (jobs w) < capacity)%Z →
  entries (jobs w) !! nth_id 0 w = None →
  ∃ w',
    profile_loop (S fuel) path request pchan w =
      Some (RespToken (mkToken (nth_id 0 w)), w') ∧
    (∀ fuel', profile_loop (S fuel') path request pchan w =
                profile_loop (S fuel) path request pchan w) ∧
    entries (jobs w') !! nth_id 0 w =
      Some (mkJob pchan (Request_Language request) (time_Now (ticks w))).
Proof.
  intros Hroom Hnew. eexists. split; [|split].
  - rewrite profile_loop_S, jobs_put_eq. cbn [jobs with_draws ticks].
    rewrite (proj2 (Z.leb_gt capacity (len (jobs w)))) by done.
    by rewrite Hnew.
  - intros fuel'. rewrite !profile_loop_S, jobs_put_eq.
    cbn [jobs with_draws ticks].
    rewrite (proj2 (Z.leb_gt capacity (len (jobs w)))) by done.
    by rewrite Hnew.
  - unfold go, with_goroutines, with_jobs, entries. cbn.
    apply lookup_insert_eq.
Qed.

(** The loop ends once the stream yields an identifier the table does not
    hold: with 503 when the table is full, else with the first such
    identifier admitted. *)
Lemma profile_loop_terminates path request pchan k : ∀ w : World,
  entries (jobs w) !! nth_id k w = None →
  ∃ resp w',
    (∀ fuel, k < fuel →
       profile_loop fuel path request pchan w = Some (resp, w')) ∧
    ((resp = RespStatus http_StatusServiceUnavailable ∧
      (capacity ≤ len (jobs w))%Z ∧
      entries (jobs w') = entries (jobs w)) ∨
     ∃ i, i ≤ k ∧
       (len (jobs w) < capacity)%Z ∧
       resp = RespToken (mkToken (nth_id i w)) ∧
       entries (jobs w) !! nth_id i w = None ∧
       (∀ i', i' < i → is_Some (entries (jobs w) !! nth_id i' w)) ∧
       entries (jobs w') !! nth_id i w =
         Some (mkJob pchan (Request_Language request) (time_Now (ticks w)))).
Proof.
  induction k as [|k IH]; intros w Hfresh.
  - destruct (decide (capacity ≤ len (jobs w))%Z) as [Hcap|Hroom].
    + exists (RespStatus http_StatusServiceUnavailable),
        (with_jobs (mkJobMap (Some (entries (jobs w))))
           (with_draws (draws w + 16) w)).
      split; [|left; split; [done|]; split; [done|]; done].
      intros [|fuel] Hlt; [lia|]. by apply profile_loop_at_capacity.
    + destruct (profile_loop_fresh path request pchan w 0)
        as (w' & Hone & Hall & Hin); [lia|done|].
      exists (RespToken (mkToken (nth_id 0 w))), w'. split.
      * intros [|fuel] Hlt; [lia|]. by rewrite Hall.
      * right. exists 0. split; [done|]. split; [lia|]. split; [done|].
        split; [done|]. split; [intros i' Hi'; lia|done].
  - destruct (decide (capacity ≤ len (jobs w))%Z) as [Hcap|Hroom].
    + exists (RespStatus http_StatusServiceUnavailable),
        (with_jobs (mkJobMap (Some (entries (jobs w))))
           (with_draws (draws w + 16) w)).
      split; [|left; split; [done|]; split; [done|]; done].
      intros [|fuel] Hlt; [lia|]. by apply profile_loop_at_capacity.
    + destruct (entries (jobs w) !! nth_id 0 w) as [j|] eqn:Hzero.
      * destruct (IH (with_draws (draws w + 16) w)) as (resp & w' & Hrun & Hres).
        { rewrite nth_id_shift. by cbn [jobs with_draws]. }
        exists resp, w'. split.
        -- intros [|fuel] Hlt; [lia|]. rewrite profile_loop_S, jobs_put_eq.
           cbn [jobs with_draws].
           rewrite (proj2 (Z.leb_gt capacity (len (jobs w)))) by lia.
           rewrite Hzero. apply Hrun. lia.
        -- cbn [jobs with_draws ticks] in Hres.
           destruct Hres as [Hres|(i & Hi & Hlen & -> & Hnew & Hold & Hin)];
             [by left|].
           right. exists (S i). rewrite nth_id_shift in *.
           split; [lia|]. split; [done|]. split; [done|]. split; [done|].
           split; [|done].
           intros [|i'] Hi'; [by rewrite Hzero|].
           specialize (Hold i'). rewrite nth_id_shift in Hold.
           apply Hold. lia.
      * destruct (profile_loop_fresh path request pchan w 0)
          as (w' & Hone & Hall & Hin); [lia|done|].
        exists (RespToken (mkToken (nth_id 0 w))), w'. split.
        -- intros [|fuel] Hlt; [lia|]. by rewrite Hall.
        -- right. exists 0. split; [lia|]. split; [lia|]. split; [done|].
           split; [done|]. split; [intros i' Hi'; lia|done].
Qed.

(** While the table has room and every identifier of the stream is one of
    its keys, the loop is still running whatever the number of turns. *)
Lemma profile_loop_spins path request pchan fuel : ∀ w : World,
  (len (jobs w) < capacity)%Z →
  (∀ i, is_Some (entries (jobs w) !! nth_id i w)) →
  profile_loop fuel path request pchan w = None.
Proof.
  induction fuel as [|fuel IH]; intros w Hroom Hkeys; [done|].
  rewrite profile_loop_S, jobs_put_eq. cbn [jobs with_draws].
  rewrite (proj2 (Z.leb_gt capacity (len (jobs w)))) by done.
  destruct (Hkeys 0) as [j ->]. apply IH; cbn [jobs with_draws]; [done|].
  intros i. specialize (Hkeys (S i)). by rewrite nth_id_shift.
Qed.


Lemma put_NotUnique_id language token pchan t (jm jm' : jobMap) :
  put language token pchan t jm = (putJobNotUnique, jm') → jm' = jm.
Proof.
  rewrite put_eq. destruct (capacity <=? len jm)%Z; [done|].
  destruct (entries jm !! token) as [j|] eqn:Hj; [|done].
  intros [= <-]. by eapply lookup_Some_m.
Qed.

Lemma profile_loop_spec path request pchan fuel : ∀ w : World,
  loop_outcome fuel path request pchan w
    (profile_loop fuel path request pchan w).
Proof.
  induction fuel as [|fuel IH]; intros w.
  - cbn. intros i Hi. lia.
  - rewrite profile_loop_S. unfold jobs_put. cbn [jobs with_draws ticks].
    destruct (put (Request_Language request) (nth_id 0 w) pchan
                (time_Now (ticks w)) (jobs w)) as [res jm'] eqn:Hput.
    destruct res.
    + exists 0. rewrite Hput. split; [lia|]. split; [intros i' Hi'; lia|].
      by repeat split.
    + apply put_NotUnique_id in Hput as Hjm. subst jm'.
      replace (with_jobs (jobs w) (with_draws (draws w + 16) w))
        with (with_draws (draws w + 16) w) by (by destruct w).
      specialize (IH (with_draws (draws w + 16) w)).
      unfold loop_outcome in IH |- *. cbn [jobs with_draws ticks] in IH.
      destruct (profile_loop fuel path request pchan
                  (with_draws (draws w + 16) w)) as [[resp w']|].
      * destruct IH as (i & Hi & Hbefore & Hjobs & Hres).
        exists (S i). rewrite nth_id_shift in *. split; [lia|].
        split; [|by split].
        intros [|i'] Hi'; [by rewrite Hput|].
        specialize (Hbefore i'). rewrite nth_id_shift in Hbefore.
        apply Hbefore. lia.
      * intros [|i] Hi; [by rewrite Hput|].
        specialize (IH i). rewrite nth_id_shift in IH. apply IH. lia.
    + exists 0. rewrite Hput. split; [lia|]. split; [intros i' Hi'; lia|].
      by repeat split.
Qed.

(** C6: [profile] sweeps the table first and makes every call of [put] on
    the swept table, with the identifiers of the stream in turn. Its answer
    is decided by the first [put] that does not answer [putJobNotUnique]:
    on [putJobFull] it is 503, the goroutines and the entries are as
    before; on [putJobOK] it is the identifier of that call, the table is
    the one [put] left, and [runProfiler] is started on the channel of the
    record. No answer within [fuel] turns means [fuel] collisions. *)
Theorem profile_spec fuel path request (w : World) :
  let pchan := (make_chan w).1 in
  let w1 := jobs_clean (make_chan w).2 in
  jobs w1 = (clean (time_Now (ticks w)) (jobs w)).2 ∧
  goroutines w1 = goroutines w ∧
  loop_outcome fuel path request pchan w1 (profile fuel path request w).
Proof.
  intros pchan w1. split; [done|]. split; [done|].
  unfold profile. change (make_chan w) with (pchan, (make_chan w).2).
  apply profile_loop_spec.
Qed.

(** * Further properties of the engine *)

(** ** Identifiers *)

Lemma length_letters_from n d : length (letters_from n d) = n.
Proof.
  revert d. induction n as [|n IH]; intros d; cbn [letters_from length];
    [done|]. by rewrite IH.
Qed.

Lemma letters_from_alphabet n d c : c ∈ letters_from n d → c ∈ letters.
Proof.
  revert d. induction n as [|n IH]; intros d; cbn [letters_from].
  - by intros ?%elem_of_nil.
  - intros [->|Hin]%elem_of_cons; [|by eapply IH].
    apply list_elem_of_In, nth_In, Nat.mod_upper_bound. by vm_compute.
Qed.

Lemma length_string_of_list_ascii l :
  String.length (String.string_of_list_ascii l) = length l.
Proof. induction l as [|c l IH]; [done|]. cbn. by rewrite IH. Qed.

(** X1: Whatever the random stream, [generateRandomID] yields sixteen
    characters, each one of the sixty-two [letters], and takes sixteen draws
    from the stream. *)
Theorem generateRandomID_alphabet (w : World) :
  let (id, w') := generateRandomID w in
  String.length id = 16 ∧
  (∀ c, c ∈ String.list_ascii_of_string id → c ∈ letters) ∧
  w' = with_draws (draws w + 16) w.
Proof.
  rewrite generateRandomID_eq. unfold nth_id. split; [|split; [|done]].
  - by rewrite length_string_of_list_ascii, length_letters_from.
  - intros c. rewrite String.list_ascii_of_string_of_list_ascii.
    apply letters_from_alphabet.
Qed.

(** ** Composing the methods of the table *)

Lemma entries_mk (mm : gmap string job) : entries (mkJobMap (Some mm)) = mm.
Proof. done. Qed.

Lemma get_eq token (jm : jobMap) :
  get token jm =
    (match entries jm !! token with
     | Some pp => (pp, true)
     | None => (zero_job, false)
     end, jm).
Proof. unfold get. by destruct (entries jm !! token). Qed.

(** X2: What [get] finds after a [put]: the record just made, under the token
    of a [put] that answered [putJobOK], and what it found before in every
    other case. *)
Theorem get_after_put language token pchan t (jm : jobMap) token' :
  let (res, jm') := put language token pchan t jm in
  (get token' jm').1 =
    if decide (res = putJobOK ∧ token' = token)
    then (mkJob pchan language t, true)
    else (get token' jm).1.
Proof.
  rewrite put_eq. destruct (capacity <=? len jm)%Z.
  - rewrite decide_False by (by intros [? _]). by rewrite !get_eq.
  - destruct (entries jm !! token) as [j|] eqn:Hj.
    + rewrite decide_False by (by intros [? _]). by rewrite !get_eq.
    + rewrite !get_eq, entries_mk. cbn [fst].
      case_decide as Heq.
      * destruct Heq as [_ ->]. by rewrite lookup_insert_eq.
      * rewrite lookup_insert_ne; [done|]. intros ->. by apply Heq.
Qed.

(** X3: A [del] undoes the [put] that admitted the token, and after it [get]
    finds nothing under the token. *)
Theorem del_after_put language token pchan t (jm : jobMap) :
  (put language token pchan t jm).1 = putJobOK →
  entries (del token (put language token pchan t jm).2).2 = entries jm ∧
  (get token (del token (put language token pchan t jm).2).2).1 =
    (zero_job, false).
Proof.
  rewrite put_eq. destruct (capacity <=? len jm)%Z; [done|].
  destruct (entries jm !! token) as [j|] eqn:Hj; [done|]. intros _.
  cbn [snd]. rewrite get_eq, !entries_del, entries_mk. cbn [fst].
  rewrite delete_insert_eq, lookup_delete_eq. split; [|done].
  by apply delete_id.
Qed.

Lemma timed_out_mono t1 t2 j :
  (t1 ≤ t2)%Z → timed_out t1 j = true → timed_out t2 j = true.
Proof. rewrite !timed_out_spec. lia. Qed.

(** X4: A sweep at [t1] followed by a sweep at a later [t2] leaves what the
    sweep at [t2] alone leaves; a sweep repeated at the same time removes
    nothing more. *)
Theorem clean_clean t1 t2 (jm : jobMap) :
  (t1 ≤ t2)%Z →
  entries (clean t2 (clean t1 jm).2).2 = entries (clean t2 jm).2.
Proof.
  intros Hle. rewrite !entries_clean. apply map_eq. intros k.
  apply option_eq. intros j. rewrite !map_lookup_filter_Some. cbn. split.
  - by intros [[Hj _] H2].
  - intros [Hj H2]. repeat split; try done.
    destruct (timed_out t1 j) eqn:H1; [|done].
    apply (timed_out_mono t1 t2 j Hle) in H1. congruence.
Qed.

(** ** Polls, case by case *)

Lemma deliver_eq token j p (w : World) :
  deliver token j p w =
    (match res_err p with
     | Some e => RespError e
     | None =>
         RespProfile (mkProfile (res_profile p) token (language j) "done" true)
     end, jobs_del (ID token) w).
Proof. unfold deliver. by destruct (res_err p). Qed.

Lemma getProfile_eq token (w : World) :
  getProfile token w =
    match entries (jobs w) !! ID token with
    | None => Returned (RespStatus http_StatusNotFound) w
    | Some j =>
        match recv (pending j) w with
        | Some (p, w1) =>
            Returned (deliver token j p w1).1 (jobs_del (ID token) w1)
        | None => Blocked
        end
    end.
Proof.
  unfold getProfile, jobs_get. rewrite get_eq.
  destruct (entries (jobs w) !! ID token) as [j|]; cbn [negb];
    rewrite with_jobs_id; [|done].
  destruct (recv (pending j) w) as [[p w1]|]; [|done].
  by rewrite deliver_eq.
Qed.

Lemma recv_Some c (w w1 : World) p :
  recv c w = Some (p, w1) →
  ∃ n cs, c = Some n ∧ chans w !! n = Some cs ∧
    ((cs = ChReady p ∧ w1 = with_chans (<[n := ChEmpty]> (chans w)) w) ∨
     (cs = ChClosed ∧ p = zero_result ∧ w1 = w)).
Proof.
  unfold recv. destruct c as [n|]; [|done].
  destruct (chans w !! n) as [cs|] eqn:Hcs; [|done].
  destruct cs as [|r|]; cbn; [done| |]; intros [= <- <-];
    exists n; eexists; (split; [done|]); (split; [done|]).
  - by left.
  - right. split; [done|]. split; [done|].
    rewrite insert_id by done. by destruct w.
Qed.

(** X5: A poll answers with a status only for a token the table does not hold;
    the status is then 404 and nothing has changed. *)
Theorem getProfile_status_iff token (w w' : World) code :
  getProfile token w = Returned (RespStatus code) w' ↔
  entries (jobs w) !! ID token = None ∧ code = http_StatusNotFound ∧ w' = w.
Proof.
  rewrite getProfile_eq. split.
  - destruct (entries (jobs w) !! ID token) as [j|].
    + destruct (recv (pending j) w) as [[p w1]|]; [|done].
      rewrite deliver_eq. cbn [fst]. by destruct (res_err p).
    + by intros [= <- <-].
  - by intros (-> & -> & ->).
Qed.

(** X6: A poll that returns has touched nothing but the record of its token
    and the channel of that record: the other records, the other channels,
    the goroutines and the two streams are as they were. *)
Theorem getProfile_frame token (w w' : World) x :
  getProfile token w = Returned x w' →
  goroutines w' = goroutines w ∧ draws w' = draws w ∧ ticks w' = ticks w ∧
  (∀ token', token' ≠ ID token →
     entries (jobs w') !! token' = entries (jobs w) !! token') ∧
  (∀ c, pending <$> entries (jobs w) !! ID token ≠ Some (Some c) →
     chans w' !! c = chans w !! c).
Proof.
  rewrite getProfile_eq.
  destruct (entries (jobs w) !! ID token) as [j|] eqn:Hj.
  - destruct (recv (pending j) w) as [[p w1]|] eqn:Hrecv; [|done].
    intros [= _ <-].
    apply recv_Some in Hrecv as (n & cs & Hc & Hcs & [[-> ->]|(-> & -> & ->)]).
    + repeat split; try done.
      * intros token' Hne. rewrite entries_jobs_del. cbn [jobs with_chans].
        by rewrite lookup_delete_ne.
      * intros c Hc'. cbn. rewrite lookup_insert_ne; [done|].
        intros ->. apply Hc'. cbn. by rewrite Hc.
    + repeat split; try done.
      intros token' Hne. rewrite entries_jobs_del.
      by rewrite lookup_delete_ne.
  - by intros [= _ <-].
Qed.

(** X7: A poll that finds the channel of the record closed takes the zero
    value a closed channel yields for a result without error: it answers
    [Done = true] with the zero profile, and deletes the record. *)
Theorem getProfile_closed_channel token (w : World) j c :
  entries (jobs w) !! ID token = Some j →
  pending j = Some c →
  chans w !! c = Some ChClosed →
  getProfile token w =
    Returned
      (RespProfile (mkProfile zeroProfile token (language j) "done" true))
      (jobs_del (ID token) w).
Proof.
  intros Hj Hc Hcs. rewrite getProfile_eq, Hj, Hc. unfold recv.
  rewrite Hcs. cbn. rewrite insert_id by done.
  by replace (with_chans (chans w) w) with w by (by destruct w).
Qed.

(** ** What a submission changes *)

Lemma profile_loop_effect path request pchan fuel : ∀ (w w' : World) resp,
  profile_loop fuel path request pchan w = Some (resp, w') →
  chans w' = chans w ∧
  ((resp = RespStatus http_StatusServiceUnavailable ∧
    goroutines w' = goroutines w ∧
    entries (jobs w') = entries (jobs w)) ∨
   (∃ id,
      resp = RespToken (mkToken id) ∧
      entries (jobs w) !! id = None ∧
      (len (jobs w) < capacity)%Z ∧
      entries (jobs w') =
        <[id := mkJob pchan (Request_Language request) (time_Now (ticks w))]>
          (entries (jobs w)) ∧
      goroutines w' =
        goroutines w ++ [runProfiler path (Request_Tokens request) pchan])).
Proof.
  induction fuel as [|fuel IH]; intros w w' resp; [done|].
  rewrite profile_loop_S, jobs_put_eq. cbn [jobs with_draws ticks].
  destruct (capacity <=? len (jobs w))%Z eqn:Hcap.
  - intros [= <- <-]. split; [done|]. by left.
  - apply Z.leb_gt in Hcap.
    destruct (entries (jobs w) !! nth_id 0 w) as [j|] eqn:Hid.
    + intros Hloop. apply IH in Hloop. by cbn [jobs with_draws ticks] in Hloop.
    + intros [= <- <-]. split; [done|]. right. by exists (nth_id 0 w).
Qed.

Lemma profile_effect fuel path request (w w' : World) resp :
  profile fuel path request w = Some (resp, w') →
  let c := fresh (dom (chans w)) in
  let swept := (clean (time_Now (ticks w)) (jobs w)).2 in
  chans w !! c = None ∧
  chans w' = <[c := ChEmpty]> (chans w) ∧
  ((resp = RespStatus http_StatusServiceUnavailable ∧
    goroutines w' = goroutines w ∧
    entries (jobs w') = entries swept) ∨
   (∃ id,
      resp = RespToken (mkToken id) ∧
      entries swept !! id = None ∧
      (len swept < capacity)%Z ∧
      entries (jobs w') =
        <[id := mkJob (Some c) (Request_Language request)
                  (time_Now (S (ticks w)))]> (entries swept) ∧
      goroutines w' =
        goroutines w ++ [runProfiler path (Request_Tokens request) (Some c)])).
Proof.
  intros Hloop c swept. unfold profile, make_chan in Hloop.
  apply profile_loop_effect in Hloop as [Hchans Hcases].
  split; [apply not_elem_of_dom, is_fresh|]. split; [done|].
  destruct Hcases as [(-> & Hgo & Hent)|(id & -> & Hnew & Hlen & Hent & Hgo)].
  - left. by repeat split.
  - right. exists id. by repeat split.
Qed.

(** ** The invariant of the process *)

Lemma runner_step_same g cs g' cs' evs :
  runner_step g cs = Some (g', cs', evs) →
  go_config g' = go_config g ∧ go_tokens g' = go_tokens g ∧
  go_pchan g' = go_pchan g.
Proof.
  unfold runner_step.
  destruct (go_pc g), cs; intros Hstep; simplify_eq/=; done.
Qed.

Lemma step_goroutine_Some i (w w' : World) evs :
  step_goroutine i w = Some (w', evs) →
  ∃ g c cs g' cs',
    goroutines w !! i = Some g ∧ go_pchan g = Some c ∧
    chans w !! c = Some cs ∧ runner_step g cs = Some (g', cs', evs) ∧
    w' = with_goroutines (<[i := g']> (goroutines w))
           (with_chans (<[c := cs']> (chans w)) w).
Proof.
  unfold step_goroutine.
  destruct (goroutines w !! i) as [g|] eqn:Hg; [|done].
  destruct (go_pchan g) as [c|] eqn:Hc; [|done].
  destruct (chans w !! c) as [cs|] eqn:Hcs; [|done].
  destruct (runner_step g cs) as [[[g' cs'] evs']|] eqn:Hstep; [|done].
  intros [= <- <-]. by exists g, c, cs, g', cs'.
Qed.

Lemma world_inv_zero : world_inv World_zero.
Proof.
  split; try done.
  unfold len, entries. cbn. rewrite map_size_empty. lia.
Qed.

Lemma awaited_same (w w' : World) g c :
  chans w' !! c = chans w !! c → awaited w g c → awaited w' g c.
Proof.
  intros Heq [Hpc|(r & Hpc & Hcs)]; [by left|].
  right. exists r. by rewrite Heq.
Qed.

(** A step of a runner keeps the invariant. *)
Lemma world_inv_runner i (w w' : World) evs :
  world_inv w → step_goroutine i w = Some (w', evs) → world_inv w'.
Proof.
  intros [Hrun Hrunc Hrec Hrecc Hlen] Hstep.
  apply step_goroutine_Some in Hstep
    as (g & c & cs & g' & cs' & Hg & Hc & Hcs & Hstep & ->).
  destruct (Hrun i g Hg) as (c0 & cs0 & Hc0 & Hcs0 & Hwf).
  assert (c0 = c) as -> by congruence. assert (cs0 = cs) as -> by congruence.
  destruct (runner_step_todo _ _ _ _ _ Hwf Hstep) as [Hwf' _].
  destruct (runner_step_same _ _ _ _ _ Hstep) as (_ & _ & Hc').
  assert (∀ k gk, <[i:=g']> (goroutines w) !! k = Some gk →
            ∃ gk0, goroutines w !! k = Some gk0 ∧
                   go_pchan gk0 = go_pchan gk ∧ (k ≠ i → gk0 = gk)) as Hold.
  { intros k gk [(-> & <- & _)|(Hne & Hk)]%list_lookup_insert_Some.
    - exists g. by rewrite Hc'.
    - by exists gk. }
  split; cbn [jobs chans goroutines with_goroutines with_chans].
  - intros k gk Hk. destruct (decide (k = i)) as [->|Hne].
    + apply list_lookup_insert_Some in Hk as [(_ & <- & _)|(? & _)]; [|done].
      exists c, cs'. rewrite Hc', Hc, lookup_insert_eq. done.
    + rewrite list_lookup_insert_ne in Hk by done.
      destruct (Hrun k gk Hk) as (ck & csk & Hck & Hcsk & Hwfk).
      exists ck, csk. split; [done|]. split; [|done].
      rewrite lookup_insert_ne; [done|]. intros <-.
      apply Hne. eapply Hrunc; [done..|]. congruence.
  - intros k k' gk gk' Hk Hk' Heq.
    destruct (Hold k gk Hk) as (gk0 & Hk0 & Hc0' & _).
    destruct (Hold k' gk' Hk') as (gk0' & Hk0' & Hc0'' & _).
    eapply Hrunc; [done..|]. congruence.
  - intros token j Hj.
    destruct (Hrec token j Hj) as (i0 & g0 & c1 & Hg0 & Hc1 & Hpend & Haw).
    destruct (decide (i0 = i)) as [->|Hne].
    + assert (g0 = g) as -> by congruence.
      assert (c1 = c) as -> by congruence.
      exists i, g', c. rewrite list_lookup_insert_eq by by eapply lookup_lt_Some.
      split; [done|]. split; [congruence|]. split; [done|].
      unfold runner_step in Hstep. unfold runner_wf in Hwf.
      destruct Haw as [Hpc|(r & Hpc & Hcsr)]; rewrite Hpc in Hstep, Hwf.
      * destruct cs; try done. simplify_eq/=. right.
        exists (run_result g). split; [done|]. cbn. by rewrite lookup_insert_eq.
      * assert (cs = ChReady r) as -> by congruence. done.
    + exists i0, g0, c1. rewrite list_lookup_insert_ne by done.
      split; [done|]. split; [done|]. split; [done|].
      eapply awaited_same; [|done]. cbn. rewrite lookup_insert_ne; [done|].
      intros <-. apply Hne. eapply Hrunc; [done..|]. congruence.
  - done.
  - done.
Qed.

(** A poll that returns keeps the invariant. *)
Lemma world_inv_poll token (w w' : World) x :
  world_inv w → getProfile token w = Returned x w' → world_inv w'.
Proof.
  intros Hinv. rewrite getProfile_eq.
  destruct (entries (jobs w) !! ID token) as [j|] eqn:Hj;
    [|by intros [= _ <-]].
  destruct (recv (pending j) w) as [[p w1]|] eqn:Hrecv; [|done].
  intros [= _ <-]. destruct Hinv as [Hrun Hrunc Hrec Hrecc Hlen].
  destruct (Hrec _ _ Hj) as (i0 & g0 & c & Hg0 & Hc & Hpend & Haw).
  destruct (Hrun _ _ Hg0) as (c' & cs & Hc' & Hcs & Hwf).
  assert (c' = c) as -> by congruence.
  apply recv_Some in Hrecv as (n & cs' & Hn & Hcs' & Hcases).
  assert (n = c) as -> by congruence. assert (cs' = cs) as -> by congruence.
  unfold runner_wf in Hwf.
  destruct Haw as [Hpc|(r & Hpc & Hcsr)]; rewrite Hpc in Hwf.
  { destruct Hcases as [[-> _]|[-> _]]; done. }
  assert (cs = ChReady r) as -> by congruence.
  destruct Hcases as [[[= <-] ->]|[? _]]; [|done].
  destruct Hwf as [Hr _].
  split; cbn [jobs chans goroutines with_jobs with_chans jobs_del].
  - intros k gk Hk.
    destruct (Hrun k gk Hk) as (ck & csk & Hck & Hcsk & Hwfk).
    destruct (decide (ck = c)) as [->|Hne].
    + assert (k = i0) as -> by (eapply Hrunc; [done..|congruence]).
      assert (gk = g0) as -> by congruence.
      exists c, ChEmpty. rewrite lookup_insert_eq.
      split; [done|]. split; [done|]. unfold runner_wf. by rewrite Hpc.
    + exists ck, csk. by rewrite lookup_insert_ne.
  - done.
  - intros token' j'. rewrite entries_del.
    intros [Hne Hj']%lookup_delete_Some.
    destruct (Hrec _ _ Hj') as (i1 & g1 & c1 & Hg1 & Hc1 & Hpend1 & Haw1).
    exists i1, g1, c1. split; [done|]. split; [done|]. split; [done|].
    eapply awaited_same; [|done]. cbn. rewrite lookup_insert_ne; [done|].
    intros <-. apply Hne. eapply Hrecc; [done..|]. congruence.
  - intros token1 token2 j1 j2. rewrite entries_del.
    intros [_ Hj1]%lookup_delete_Some [_ Hj2]%lookup_delete_Some.
    by eapply Hrecc.
  - pose proof (len_del (ID token) (jobs w)). lia.
Qed.

(** A new channel, and records dropped from the table, keep the
    invariant. *)
Lemma world_inv_alloc c (w w' : World) :
  world_inv w →
  chans w !! c = None →
  goroutines w' = goroutines w →
  chans w' = <[c := ChEmpty]> (chans w) →
  entries (jobs w') ⊆ entries (jobs w) →
  world_inv w'.
Proof.
  intros [Hrun Hrunc Hrec Hrecc Hlen] Hfresh Hgo Hchans Hsub.
  assert (∀ k gk, goroutines w !! k = Some gk → go_pchan gk ≠ Some c) as Hnew.
  { intros k gk Hk Heq.
    destruct (Hrun k gk Hk) as (ck & csk & Hck & Hcsk & _). congruence. }
  split; rewrite ?Hgo, ?Hchans.
  - intros k gk Hk.
    destruct (Hrun k gk Hk) as (ck & csk & Hck & Hcsk & Hwfk).
    exists ck, csk. split; [done|]. split; [|done].
    rewrite lookup_insert_ne; [done|]. intros <-. by eapply Hnew.
  - done.
  - intros token j Hj.
    apply (lookup_weaken _ _ _ _ Hj) in Hsub.
    destruct (Hrec _ _ Hsub) as (i1 & g1 & c1 & Hg1 & Hc1 & Hpend1 & Haw1).
    exists i1, g1, c1. split; [done|]. split; [done|]. split; [done|].
    eapply awaited_same; [|done]. rewrite Hchans.
    rewrite lookup_insert_ne; [done|]. intros <-. by eapply Hnew.
  - intros token1 token2 j1 j2 Hj1 Hj2.
    apply (lookup_weaken _ _ _ _ Hj1) in Hsub as Hj1'.
    apply (lookup_weaken _ _ _ _ Hj2) in Hsub as Hj2'.
    by eapply Hrecc.
  - pose proof (map_subseteq_size _ _ Hsub). unfold len in *. lia.
Qed.

(** A record admitted together with a runner on a channel nobody uses yet
    keeps the invariant. *)
Lemma world_inv_admit c id language t config tokens (w w' : World) :
  world_inv w →
  chans w !! c = Some ChEmpty →
  (∀ k gk, goroutines w !! k = Some gk → go_pchan gk ≠ Some c) →
  entries (jobs w) !! id = None →
  (len (jobs w) < capacity)%Z →
  chans w' = chans w →
  goroutines w' = goroutines w ++ [runProfiler config tokens (Some c)] →
  entries (jobs w') = <[id := mkJob (Some c) language t]> (entries (jobs w)) →
  world_inv w'.
Proof.
  intros [Hrun Hrunc Hrec Hrecc Hlen] Hcs Hnew Hid Hcap Hchans Hgo Hent.
  assert (∀ token j, entries (jobs w) !! token = Some j →
            pending j ≠ Some c) as Hnewrec.
  { intros token j Hj Heq.
    destruct (Hrec _ _ Hj) as (i1 & g1 & c1 & Hg1 & Hc1 & Hpend1 & _).
    eapply Hnew; [done|]. congruence. }
  split; rewrite ?Hgo, ?Hchans, ?Hent.
  - intros k gk [[_ Hk]|[-> <-]]%lookup_snoc_Some.
    + by apply (Hrun k).
    + by exists c, ChEmpty.
  - intros k k' gk gk'.
    intros [[_ Hk]|[-> <-]]%lookup_snoc_Some
           [[_ Hk']|[-> <-]]%lookup_snoc_Some Heq.
    + by eapply Hrunc.
    + exfalso. by eapply (Hnew k gk).
    + exfalso. by eapply (Hnew k' gk').
    + done.
  - intros token j [[<- <-]|[Hne Hj]]%lookup_insert_Some.
    + exists (length (goroutines w)), (runProfiler config tokens (Some c)), c.
      split; [apply lookup_snoc_Some; by right|]. split; [done|].
      split; [done|]. by left.
    + destruct (Hrec _ _ Hj) as (i1 & g1 & c1 & Hg1 & Hc1 & Hpend1 & Haw1).
      exists i1, g1, c1. split; [by apply lookup_app_l_Some|].
      split; [done|]. split; [done|].
      eapply awaited_same; [|done]. by rewrite Hchans.
  - intros token1 token2 j1 j2.
    intros [[<- <-]|[Hne1 Hj1]]%lookup_insert_Some
           [[<- <-]|[Hne2 Hj2]]%lookup_insert_Some Heq.
    + done.
    + exfalso. by eapply (Hnewrec token2 j2).
    + exfalso. by eapply (Hnewrec token1 j1).
    + by eapply Hrecc.
  - unfold len in *. rewrite Hent, map_size_insert_None by done.
    pose proof capacity_le_maxJobs. lia.
Qed.

Lemma entries_clean_subseteq t (jm : jobMap) :
  entries (clean t jm).2 ⊆ entries jm.
Proof. rewrite entries_clean. apply map_filter_subseteq. Qed.

(** A submission that returns keeps the invariant. *)
Lemma world_inv_submit fuel path request (w w' : World) resp :
  world_inv w → profile fuel path request w = Some (resp, w') → world_inv w'.
Proof.
  intros Hinv Hprofile.
  destruct (profile_effect _ _ _ _ _ _ Hprofile) as (Hfresh & Hchans & Hcases).
  set (c := fresh (dom (chans w))) in *.
  set (swept := (clean (time_Now (ticks w)) (jobs w)).2) in *.
  destruct Hcases as [(_ & Hgo & Hent)|(id & _ & Hid & Hcap & Hent & Hgo)].
  - eapply (world_inv_alloc c w); [done..|].
    rewrite Hent. apply entries_clean_subseteq.
  - set (w1 := with_chans (<[c := ChEmpty]> (chans w)) (with_jobs swept w)).
    assert (world_inv w1) as Hinv1.
    { eapply (world_inv_alloc c w); [done..|]. apply entries_clean_subseteq. }
    eapply (world_inv_admit c id _ _ _ _ w1); [done| | |done|done|done..].
    + cbn. apply lookup_insert_eq.
    + intros k gk Hk Heq. destruct Hinv as [Hrun _ _ _ _].
      destruct (Hrun k gk Hk) as (ck & csk & Hck & Hcsk & _). congruence.
Qed.

(** The invariant holds whenever the process is between two moves. *)
Lemma reachable_inv (w : World) : reachable w → world_inv w.
Proof.
  unfold reachable. revert w. apply rtc_ind_r; [apply world_inv_zero|].
  intros w w' _ Hstep Hinv.
  destruct Hstep as [fuel path request resp w' Hsub|token x w' Hpoll
                    |i w' evs Hrun].
  - by eapply world_inv_submit.
  - by eapply world_inv_poll.
  - by eapply world_inv_runner.
Qed.

(** ** What the invariant gives *)

(** X8: In every state the process reaches, each runner has its channel in the
    state that fits where it stands (empty before the send, holding the
    result of the runner while it is parked, closed once it has returned),
    and it can take its next step unless it has returned or is parked with
    its result waiting for a poll: no runner ever sends on, or closes, a
    closed channel. *)
Theorem runner_never_stuck (w : World) i g :
  reachable w →
  goroutines w !! i = Some g →
  ∃ c cs,
    go_pchan g = Some c ∧ chans w !! c = Some cs ∧ runner_wf g cs ∧
    (step_goroutine i w = None →
     (go_pc g = PcExit ∧ cs = ChClosed) ∨
     (go_pc g = PcParked (run_result g) ∧ cs = ChReady (run_result g))).
Proof.
  intros Hreach Hg. destruct (reachable_inv _ Hreach) as [Hrun _ _ _ _].
  destruct (Hrun i g Hg) as (c & cs & Hc & Hcs & Hwf).
  exists c, cs. split; [done|]. split; [done|]. split; [done|].
  unfold step_goroutine. rewrite Hg, Hc, Hcs.
  unfold runner_wf in Hwf. unfold runner_step.
  destruct (go_pc g) as [|r| |], cs as [|r'|]; try done; intros _.
  - right. destruct Hwf as [-> ->]. done.
  - by left.
Qed.

(** X9: In every state the process reaches, what a poll hands back for a token
    of the table is what [gofiler.Run] returned to the runner started on the
    channel of that record: its profile with [Done = true], or its error. *)
Theorem poll_delivers_runner_result token (w w' : World) x :
  reachable w →
  getProfile token w = Returned x w' →
  x = RespStatus http_StatusNotFound ∨
  ∃ j i g,
    entries (jobs w) !! ID token = Some j ∧
    goroutines w !! i = Some g ∧
    go_pchan g = pending j ∧
    x = match gofiler_Run (go_config g) (go_tokens g) with
        | (_, Some e) => RespError e
        | (p, None) =>
            RespProfile (mkProfile p token (language j) "done" true)
        end.
Proof.
  intros Hreach. destruct (reachable_inv _ Hreach) as [Hrun _ Hrec _ _].
  rewrite getProfile_eq.
  destruct (entries (jobs w) !! ID token) as [j|] eqn:Hj;
    [|intros [= <- _]; by left].
  destruct (recv (pending j) w) as [[p w1]|] eqn:Hrecv; [|done].
  rewrite deliver_eq. intros [= <- _]. right.
  destruct (Hrec _ _ Hj) as (i0 & g0 & c & Hg0 & Hc & Hpend & Haw).
  destruct (Hrun _ _ Hg0) as (c' & cs & Hc' & Hcs & Hwf).
  assert (c' = c) as -> by congruence.
  apply recv_Some in Hrecv as (n & cs' & Hn & Hcs' & Hcases).
  assert (n = c) as -> by congruence. assert (cs' = cs) as -> by congruence.
  exists j, i0, g0. split; [done|]. split; [done|]. split; [congruence|].
  unfold runner_wf in Hwf.
  destruct Haw as [Hpc|(r & Hpc & Hcsr)]; rewrite Hpc in Hwf.
  { destruct Hcases as [[-> _]|[-> _]]; done. }
  assert (cs = ChReady r) as -> by congruence.
  destruct Hcases as [[[= <-] _]|[? _]]; [|done].
  destruct Hwf as [-> _]. unfold run_result.
  by destruct (gofiler_Run (go_config g0) (go_tokens g0)) as [p0 [e|]].
Qed.

Lemma clean_gone t (jm : jobMap) token j :
  entries jm !! token = Some j →
  timed_out t j = true →
  entries (clean t jm).2 !! token = None.
Proof.
  intros Hj Hto. rewrite entries_clean. apply map_lookup_filter_None.
  right. intros j' Hj'. cbn. congruence.
Qed.

(** X10: Once a submission has been handled at a time when the record of a
    token had outlived the timeout, a poll of that token answers 404, unless
    the submission has just issued that very token again. *)
Theorem swept_then_not_found fuel path request (w w' : World) resp token j :
  profile fuel path request w = Some (resp, w') →
  entries (jobs w) !! ID token = Some j →
  (time_Now (ticks w) - start j > delta)%Z →
  resp ≠ RespToken token →
  getProfile token w' = Returned (RespStatus http_StatusNotFound) w'.
Proof.
  intros Hprofile Hj Hage Hresp. apply getProfile_absent.
  destruct (profile_effect _ _ _ _ _ _ Hprofile) as (_ & _ & Hcases).
  apply timed_out_spec in Hage.
  pose proof (clean_gone _ _ _ _ Hj Hage) as Hgone.
  destruct Hcases as [(_ & _ & ->)|(id & -> & _ & _ & -> & _)]; [done|].
  rewrite lookup_insert_ne; [done|]. intros ->. apply Hresp. by destruct token.
Qed.

Lemma getProfile_Returned token (w w' : World) x :
  getProfile token w = Returned x w' →
  goroutines w' = goroutines w ∧
  entries (jobs w') ⊆ entries (jobs w) ∧
  ∀ c, (∀ j, entries (jobs w) !! ID token = Some j → pending j ≠ Some c) →
       chans w' !! c = chans w !! c.
Proof.
  rewrite getProfile_eq.
  destruct (entries (jobs w) !! ID token) as [j|] eqn:Hj;
    [|by intros [= _ <-]].
  destruct (recv (pending j) w) as [[p w1]|] eqn:Hrecv; [|done].
  intros [= _ <-].
  apply recv_Some in Hrecv as (n & cs & Hc & Hcs & [[-> ->]|(-> & -> & ->)]).
  - split; [done|]. split.
    + rewrite entries_jobs_del. apply delete_subseteq.
    + intros c Hc'. cbn. rewrite lookup_insert_ne; [done|].
      intros ->. by apply (Hc' j).
  - split; [done|]. split; [|done].
    rewrite entries_jobs_del. apply delete_subseteq.
Qed.

Lemma orphaned_step (w w' : World) i c r :
  world_inv w → orphaned w i c r → sys_step w w' → orphaned w' i c r.
Proof.
  intros [Hrun Hrunc _ _ _] ((g & Hg & Hc & Hpc) & Hcs & Hnorec) Hstep.
  destruct Hstep as [fuel path request resp w' Hsub|token x w' Hpoll
                    |k w' evs Hstep].
  - destruct (profile_effect _ _ _ _ _ _ Hsub) as (Hfresh & Hchans & Hcases).
    set (c1 := fresh (dom (chans w))) in *.
    assert (c1 ≠ c) as Hne by congruence.
    assert (chans w' !! c = Some (ChReady r)) as Hcs'
      by by rewrite Hchans, lookup_insert_ne.
    pose proof (entries_clean_subseteq (time_Now (ticks w)) (jobs w)) as Hsw.
    destruct Hcases as [(_ & Hgo & Hent)|(id & _ & _ & _ & Hent & Hgo)].
    + split; [exists g; by rewrite Hgo|]. split; [done|].
      intros token j. rewrite Hent. intros Hj.
      eapply Hnorec, lookup_weaken; done.
    + split; [exists g; rewrite Hgo; split; [by apply lookup_app_l_Some|done]|].
      split; [done|]. intros token j. rewrite Hent.
      intros [[_ <-]|[_ Hj]]%lookup_insert_Some; [cbn; congruence|].
      eapply Hnorec, lookup_weaken; done.
  - destruct (getProfile_Returned _ _ _ _ Hpoll) as (Hgo & Hsub & Hchans).
    split; [exists g; by rewrite Hgo|].
    split; [rewrite Hchans; [done|]; intros j Hj; by eapply Hnorec|].
    intros token' j Hj. eapply Hnorec, lookup_weaken; done.
  - apply step_goroutine_Some in Hstep
      as (gk & ck & csk & gk' & csk' & Hgk & Hck & Hcsk & Hstep & ->).
    assert (k ≠ i) as Hki.
    { intros ->. assert (gk = g) as -> by congruence.
      assert (ck = c) as -> by congruence.
      assert (csk = ChReady r) as -> by congruence.
      unfold runner_step in Hstep. by rewrite Hpc in Hstep. }
    assert (ck ≠ c) as Hckc.
    { intros ->. apply Hki. eapply Hrunc; [done..|]. congruence. }
    split; [exists g; cbn; by rewrite list_lookup_insert_ne|].
    split; [cbn; by rewrite lookup_insert_ne|]. done.
Qed.

(** X11: A runner parked in its send whose channel no record names any more
    (its record was swept before a poll took the result) stays so whatever
    submissions, polls and runner steps follow: it never returns and its
    channel is never closed. *)
Theorem orphaned_forever (w w' : World) i c r :
  reachable w → orphaned w i c r → rtc sys_step w w' → orphaned w' i c r.
Proof.
  intros Hreach Horph Hsteps. revert w' Hsteps.
  apply (rtc_ind_r (λ w', orphaned w' i c r)); [done|].
  intros w1 w2 Hsteps Hstep Horph1. eapply orphaned_step; [|done..].
  apply reachable_inv. unfold reachable in *. by etrans.
Qed.

(** * Properties of the HTTP layer *)

(** ** Header values *)

Lemma prefix_app (sub s : string) :
  String.prefix sub s = true ↔ ∃ post, s = sub +:+ post.
Proof.
  revert s. induction sub as [|a sub IH]; intros s.
  - destruct s; cbn; (split; [intros _; by eexists|done]).
  - destruct s as [|b s]; cbn.
    + split; [done|]. by intros [post [=]].
    + destruct (Ascii.ascii_dec a b) as [->|Hne].
      * rewrite IH. split.
        -- intros [post ->]. by exists post.
        -- intros [post [= ->]]. by exists post.
      * split; [done|]. intros [post [= ? _]]. done.
Qed.

Lemma strings_Contains_spec (s sub : string) :
  strings_Contains s sub = true ↔ ∃ pre post, s = pre +:+ sub +:+ post.
Proof.
  induction s as [|a s IH]; cbn [strings_Contains]; rewrite orb_true_iff.
  - split.
    + intros [[post ->]%prefix_app|?]; [|done]. by exists "", post.
    + intros (pre & post & Heq). left. apply prefix_app. exists post.
      destruct pre; [done|]. discriminate.
  - rewrite prefix_app, IH. split.
    + intros [[post ->]|(pre & post & ->)].
      * by exists "", post.
      * by exists (String a pre), post.
    + intros (pre & post & Heq). destruct pre as [|b pre].
      * left. by exists post.
      * right. injection Heq as _ ->. by exists pre, post.
Qed.

(** X12: [containsVal] holds exactly when one of the values stored under the
    key has [val] as a substring; a key the header lacks has none. *)
Theorem containsVal_spec (header : http_Header) key val :
  containsVal header key val = true ↔
  ∃ vs v pre post,
    header !! key = Some vs ∧ v ∈ vs ∧ v = pre +:+ val +:+ post.
Proof.
  unfold containsVal. rewrite existsb_exists. split.
  - intros (v & Hin & (pre & post & ->)%strings_Contains_spec).
    destruct (header !! key) as [vs|]; [|done].
    exists vs, (pre +:+ val +:+ post), pre, post.
    by rewrite list_elem_of_In.
  - intros (vs & v & pre & post & -> & Hin & ->).
    exists (pre +:+ val +:+ post). rewrite <- list_elem_of_In.
    split; [done|]. apply strings_Contains_spec. by exists pre, post.
Qed.

(** ** The route /profile *)

Lemma getProfile_handler_cases token (w w' : World) x :
  getProfile_handler token w = Some (Returned x w') →
  (x = AnyResponse (RespStatus http_StatusNotFound) ∧ w' = w ∧
   entries (jobs w) !! ID token = None) ∨
  (is_Some (entries (jobs w) !! ID token) ∧
   entries (jobs w') !! ID token = None ∧
   ((∃ e, x = AnyResponse (RespError e)) ∨
    (∃ p, x = AnyResponse (RespProfile p) ∧ Profile_Done p = true ∧
          Profile_Token p = token))).
Proof.
  unfold getProfile_handler. rewrite getProfile_eq.
  destruct (entries (jobs w) !! ID token) as [j|] eqn:Hj.
  - destruct (recv (pending j) w) as [[p w1]|]; [|done].
    rewrite deliver_eq. cbn [fst]. intros [= <- <-]. right.
    split; [done|]. split; [by rewrite entries_jobs_del, lookup_delete_eq|].
    destruct (res_err p) as [e|]; [left; by exists e|].
    right. by eexists.
  - intros [= <- <-]. by left.
Qed.

Lemma length_nth_id k (w : World) : String.length (nth_id k w) = 16.
Proof.
  unfold nth_id. by rewrite length_string_of_list_ascii, length_letters_from.
Qed.

Lemma profile_loop_token_length path request pchan fuel :
  ∀ (w w' : World) t,
  profile_loop fuel path request pchan w = Some (RespToken t, w') →
  String.length (ID t) = 16.
Proof.
  induction fuel as [|fuel IH]; intros w w' t; [done|].
  rewrite profile_loop_S.
  destruct (jobs_put (Request_Language request) (nth_id 0 w) pchan
              (with_draws (draws w + 16) w)) as [[] w2].
  - intros [= <- _]. apply length_nth_id.
  - apply IH.
  - done.
Qed.

Lemma profile_handler_cases fuel path request (w w' : World) x :
  profile_handler fuel path request w = Some (Returned x w') →
  x = AnyResponse (RespStatus http_StatusServiceUnavailable) ∨
  ∃ t, x = AnyResponse (RespToken t) ∧ String.length (ID t) = 16 ∧
       is_Some (entries (jobs w') !! ID t).
Proof.
  unfold profile_handler.
  destruct (profile fuel path request w) as [[resp w1]|] eqn:Hprofile; [|done].
  intros [= <- <-].
  destruct (profile_effect _ _ _ _ _ _ Hprofile) as (_ & _ & Hcases).
  destruct Hcases as [(-> & _)|(id & -> & _ & _ & Hent & _)]; [by left|].
  right. exists (mkToken id). split; [done|]. split.
  - unfold profile in Hprofile. destruct (make_chan w) as [pchan w0].
    by apply profile_loop_token_length in Hprofile.
  - rewrite Hent. cbn [ID]. rewrite lookup_insert_eq. by eexists.
Qed.

Lemma status_rejected code (r : http_Request) (w w' : World) x :
  code = http_StatusBadRequest ∨ code = http_StatusNotFound ∨
    code = http_StatusMethodNotAllowed →
  status code w = Some (Returned x w') →
  profile_answer r w w' x.
Proof.
  intros Hcode [= <- <-]. left. by exists code.
Qed.

Lemma decodeJSON_cases fuel reader (r : http_Request) (w w' : World) x :
  Method r = http_MethodPost →
  decodeJSON reader (withValidLanguage (profile_handler fuel)) w =
    Some (Returned x w') →
  profile_answer r w w' x.
Proof.
  intros Hpost. unfold decodeJSON.
  destruct (json_Decode reader) as [data|];
    [|apply status_rejected; by left].
  unfold withValidLanguage.
  destruct (gofiler_FindLanguage backend (Request_Language data)) as [lc err].
  case_decide as Hnotfound; [apply status_rejected; right; by left|].
  destruct err as [e|].
  - intros [= <- <-]. right. right. left. by exists e.
  - intros [->|(t & -> & Hlen & Hin)]%profile_handler_cases.
    + right. by left.
    + right. right. right. left. by exists t.
Qed.

(** Every way the handlers under [handle] return on the route. *)
Lemma route_profile_cases fuel rw r (w w' : World) x :
  withGetOrPost (withToken getProfile_handler)
    (withRequest (withValidLanguage (profile_handler fuel))) rw r w =
    Some (Returned x w') →
  profile_answer r w w' x.
Proof.
  unfold withGetOrPost. case_decide as Hget; [|case_decide as Hpost].
  - unfold withToken. case_decide as Hid; [apply status_rejected; by left|].
    intros [(-> & -> & _)|(_ & Hgone & Hx)]%getProfile_handler_cases.
    + left. eexists. split; [done|]. split; [done|]. right. by left.
    + right. right. destruct Hx as [[e ->]|(p & -> & Hdone & Htok)].
      * left. by exists e.
      * right. right. exists p. rewrite Htok. by repeat split.
  - unfold withRequest.
    destruct (negb (containsVal (Header r) "Content-Type" "application/json")
              || negb (containsVal (Header r) "Content-Type" "charset=utf-8"));
      [apply status_rejected; by left|].
    destruct (containsVal (Header r) "Content-Encoding" "gzip").
    + destruct (gzip_NewReader (Body r)) as [reader|];
        [by apply decodeJSON_cases|apply status_rejected; by left].
    + by apply decodeJSON_cases.
  - apply status_rejected. right. by right.
Qed.

Lemma sendResponse_app rw (r : http_Request) x :
  ∃ calls,
    sendResponse rw r x =
      rw ++ Header_Set "Content-Type" "application/json; charset=utf-8" :: calls.
Proof.
  unfold sendResponse.
  destruct (containsVal (Header r) "Accept-Encoding" "gzip").
  - eexists. by rewrite <- (assoc_L (++)).
  - eexists. by rewrite <- (assoc_L (++)).
Qed.

Lemma route_profile_handled fuel rw r (w w' : World) rw' :
  route_profile fuel rw r w = Some (Returned rw' w') →
  ∃ x,
    profile_answer r w w' x ∧
    rw' = match x with
          | AnyResponse (RespStatus t) => rw ++ [http_Error "" t]
          | AnyResponse (RespError _) =>
              rw ++ [http_Error "" http_StatusInternalServerError]
          | _ => sendResponse rw r x
          end.
Proof.
  unfold route_profile, withLogging, handle.
  destruct (withGetOrPost _ _ rw r w) as [[x w1|]|] eqn:Hinner; [|done..].
  intros [= <- <-]. exists x. split; [|done]. by eapply route_profile_cases.
Qed.

(** X13: Whatever the route /profile writes when it returns is one of three
    things: a single [http.Error] with an empty message and one of the
    statuses 400, 404, 405, 500 and 503, so that no text of an error reaches
    the client; for a POST, the JSON of a token of sixteen characters that is
    now a key of the table; for a GET, the JSON of the finished profile of
    the token asked for, whose record is now gone. *)
Theorem route_profile_answer fuel rw r (w w' : World) rw' :
  route_profile fuel rw r w = Some (Returned rw' w') →
  (∃ code,
     rw' = rw ++ [http_Error "" code] ∧
     code ∈ [400; 404; 405; 500; 503]%Z) ∨
  (∃ t,
     rw' = sendResponse rw r (AnyResponse (RespToken t)) ∧
     Method r = http_MethodPost ∧
     String.length (ID t) = 16 ∧
     is_Some (entries (jobs w') !! ID t)) ∨
  (∃ p,
     rw' = sendResponse rw r (AnyResponse (RespProfile p)) ∧
     Method r = http_MethodGet ∧
     Profile_Done p = true ∧
     ID (Profile_Token p) = url_Values_Get (URL_Query r) "token" ∧
     entries (jobs w') !! ID (Profile_Token p) = None).
Proof.
  intros (x & Hx & ->)%route_profile_handled.
  destruct Hx as [(code & -> & _ & Hcode)|[->|[[e ->]|[Htok|Hprof]]]].
  - left. exists code. split; [done|]. apply list_elem_of_In. cbn.
    unfold http_StatusBadRequest, http_StatusNotFound,
      http_StatusMethodNotAllowed in Hcode. lia.
  - left. eexists. split; [done|]. apply list_elem_of_In. cbn.
    unfold http_StatusServiceUnavailable. lia.
  - left. eexists. split; [done|]. apply list_elem_of_In. cbn.
    unfold http_StatusInternalServerError. lia.
  - destruct Htok as (t & -> & ?). right. left. by exists t.
  - destruct Hprof as (p & -> & ?). right. right. by exists p.
Qed.

(** X14: A request the route /profile answers with 400, 404 or 405 has changed
    nothing: no sweep has run, no channel was made, no record was added or
    removed. *)
Theorem route_profile_rejected_unchanged fuel rw r (w w' : World) msg code :
  route_profile fuel rw r w = Some (Returned (rw ++ [http_Error msg code]) w') →
  code ∈ [400; 404; 405]%Z →
  w' = w.
Proof.
  intros (x & Hx & Hrw)%route_profile_handled Hcode.
  apply list_elem_of_In in Hcode. cbn in Hcode.
  destruct Hx as [(code' & -> & -> & _)|[->|[[e ->]|[Htok|Hprof]]]].
  - done.
  - apply app_inv_head in Hrw as [= _ ->].
    unfold http_StatusServiceUnavailable in Hcode. lia.
  - apply app_inv_head in Hrw as [= _ ->].
    unfold http_StatusInternalServerError in Hcode. lia.
  - destruct Htok as (t & -> & _).
    destruct (sendResponse_app rw r (AnyResponse (RespToken t))) as [calls Heq].
    rewrite Heq in Hrw. by apply app_inv_head in Hrw.
  - destruct Hprof as (p & -> & _).
    destruct (sendResponse_app rw r (AnyResponse (RespProfile p)))
      as [calls Heq].
    rewrite Heq in Hrw. by apply app_inv_head in Hrw.
Qed.

(** ** From the submission to the poll *)

Lemma profile_admitted fuel path request (w w' : World) t :
  profile fuel path request w = Some (RespToken t, w') →
  ∃ c start,
    chans w' !! c = Some ChEmpty ∧
    entries (jobs w') !! ID t =
      Some (mkJob (Some c) (Request_Language request) start) ∧
    goroutines w' =
      goroutines w ++ [runProfiler path (Request_Tokens request) (Some c)].
Proof.
  intros Hprofile.
  destruct (profile_effect _ _ _ _ _ _ Hprofile) as (_ & Hchans & Hcases).
  destruct Hcases as [([=] & _)|(id & [= ->] & _ & _ & Hent & Hgo)].
  eexists _, _. rewrite Hchans, Hent, Hgo. cbn [ID].
  by rewrite !lookup_insert_eq.
Qed.

(** X15: The token a submission has just handed out, asked for through GET
    /profile before the runner has reached its send, makes the request
    park: the route writes nothing and does not return. *)
Theorem issued_token_polled_parks fuel path request (w w' : World) t fuel' rw r :
  profile fuel path request w = Some (RespToken t, w') →
  Method r = http_MethodGet →
  url_Values_Get (URL_Query r) "token" = ID t →
  route_profile fuel' rw r w' = Some Blocked.
Proof.
  intros Hprofile Hget Hquery. destruct t as [id]. cbn [ID] in *.
  assert (String.length id = 16) as Hlen.
  { unfold profile in Hprofile. destruct (make_chan w) as [pchan w0].
    by apply profile_loop_token_length in Hprofile. }
  destruct (profile_admitted _ _ _ _ _ _ Hprofile) as (c & t0 & Hcs & Hj & _).
  cbn [ID] in Hj.
  unfold route_profile, withLogging, handle, withGetOrPost, withToken.
  rewrite decide_True by done. rewrite Hquery.
  rewrite decide_False by (intros Heq; by rewrite Heq in Hlen).
  unfold getProfile_handler.
  by rewrite (getProfile_parks (mkToken id) _ _ c Hj).
Qed.

(** X16: A job that was admitted, and whose runner then takes its first step,
    is delivered by the poll of its token: the answer is the profile
    [gofiler.Run] returned for the path and the tokens of the submission,
    marked done and with the language of the request, or the error it
    returned; and the record is gone. *)
Theorem submit_run_poll fuel path request (w w1 : World) t :
  profile fuel path request w = Some (RespToken t, w1) →
  ∃ w2 w3 r,
    step_goroutine (length (goroutines w)) w1 = Some (w2, [EvSend r]) ∧
    getProfile t w2 =
      Returned
        match gofiler_Run path (Request_Tokens request) with
        | (_, Some e) => RespError e
        | (p, None) =>
            RespProfile (mkProfile p t (Request_Language request) "done" true)
        end w3 ∧
    entries (jobs w3) !! ID t = None.
Proof.
  intros Hprofile.
  destruct (profile_admitted _ _ _ _ _ _ Hprofile) as (c & t0 & Hcs & Hj & Hgo).
  set (g := runProfiler path (Request_Tokens request) (Some c)) in *.
  assert (goroutines w1 !! length (goroutines w) = Some g) as Hg.
  { rewrite Hgo. apply lookup_snoc_Some. by right. }
  eexists _, _, (run_result g). split; [|split].
  - unfold step_goroutine. rewrite Hg. cbn [go_pchan g runProfiler].
    rewrite Hcs. cbn. done.
  - rewrite getProfile_eq. cbn [jobs with_goroutines with_chans].
    rewrite Hj. cbn [pending recv chans with_goroutines with_chans].
    rewrite lookup_insert_eq. cbn [receiver_step].
    rewrite deliver_eq. cbn [fst language res_err res_profile].
    unfold run_result. cbn [go_config go_tokens g runProfiler].
    assert (∀ (a b : response) (wa : World), a = b →
              Returned a wa = Returned b wa) as Heq by (by intros ??? ->).
    apply Heq.
    by destruct (gofiler_Run path (Request_Tokens request)) as [p [e|]].
  - by rewrite entries_jobs_del, lookup_delete_eq.
Qed.

(** ** The route /languages *)

(** X17: The route /languages always returns and never changes the process. It
    answers 405 to any method but GET, 500 with an empty message when the
    languages cannot be listed, and otherwise the JSON of the names of the
    configured languages, in the order they are listed. *)
Theorem route_languages_answer rw r (w : World) :
  route_languages rw r w =
    serve
      (if decide (Method r = http_MethodGet)
       then match gofiler_ListLanguages backend with
            | (_, Some _) =>
                rw ++ [http_Error "" http_StatusInternalServerError]
            | (lcs, None) =>
                sendResponse rw r
                  (AnyLanguages (mkLanguages (Language <$> lcs)))
            end
       else rw ++ [http_Error "" http_StatusMethodNotAllowed])
      w.
Proof.
  unfold route_languages, withLogging, handle, withGet, getLanguages.
  case_decide as Hne.
  - by rewrite decide_False by done.
  - rewrite decide_True by by destruct (decide (Method r = http_MethodGet)).
    by destruct (gofiler_ListLanguages backend) as [lcs [e|]].
Qed.

(** ** Capacity and the sweep *)

Lemma profile_loop_full path request pchan fuel : ∀ (w w' : World) resp,
  profile_loop fuel path request pchan w = Some (resp, w') →
  (resp = RespStatus http_StatusServiceUnavailable ↔
   (capacity ≤ len (jobs w))%Z).
Proof.
  induction fuel as [|fuel IH]; intros w w' resp; [done|].
  rewrite profile_loop_S, jobs_put_eq. cbn [jobs with_draws ticks].
  destruct (capacity <=? len (jobs w))%Z eqn:Hcap.
  - apply Z.leb_le in Hcap. by intros [= <- _].
  - apply Z.leb_gt in Hcap.
    destruct (entries (jobs w) !! nth_id 0 w) as [j|].
    + intros Hloop. apply IH in Hloop. by cbn [jobs with_draws] in Hloop.
    + intros [= <- _]. split; [done|lia].
Qed.


(** X19: In every state the process reaches no two records of the table name
    the same channel and no two runners send on the same channel. *)
Theorem channels_not_shared (w : World) :
  reachable w →
  (∀ token token' j j',
     entries (jobs w) !! token = Some j →
     entries (jobs w) !! token' = Some j' →
     pending j = pending j' → token = token') ∧
  (∀ i i' g g',
     goroutines w !! i = Some g → goroutines w !! i' = Some g' →
     go_pchan g = go_pchan g' → i = i').
Proof.
  intros Hreach. destruct (reachable_inv _ Hreach) as [_ Hrunc _ Hrecc _].
  split; [exact Hrecc|exact Hrunc].
Qed.

(** * What goes over the channels *)

Lemma on_chan_app c tr1 tr2 :
  on_chan c (tr1 ++ tr2) = on_chan c tr1 ++ on_chan c tr2.
Proof. apply filter_app. Qed.

Lemma on_chan_same c (e : wire_event) :
  wire_chan e = c → on_chan c [e] = [e].
Proof.
  intros He. unfold on_chan. rewrite filter_cons, decide_True by done.
  by rewrite filter_nil.
Qed.

Lemma on_chan_other c (e : wire_event) :
  wire_chan e ≠ c → on_chan c [e] = [].
Proof.
  intros He. unfold on_chan. rewrite filter_cons, decide_False by done.
  by rewrite filter_nil.
Qed.

Lemma run_from_cons st mv ms :
  run_from st (mv :: ms) =
    run_from ((do_move mv st.1).1, st.2 ++ (do_move mv st.1).2) ms.
Proof. unfold run_from. cbn [foldl]. by destruct (do_move mv st.1). Qed.

Lemma run_from_app st ms1 ms2 :
  run_from st (ms1 ++ ms2) = run_from (run_from st ms1) ms2.
Proof. apply foldl_app. Qed.

(** A move is a step of the process, or leaves it as it is. *)
Lemma do_move_step mv (w : World) :
  ((do_move mv w).1 = w ∧ (do_move mv w).2 = []) ∨ sys_step w (do_move mv w).1.
Proof.
  destruct mv as [fuel path request|token|i]; cbn [do_move].
  - destruct (profile fuel path request w) as [[resp w']|] eqn:Hsub;
      [|by left].
    right. by eapply step_submit.
  - destruct (getProfile token w) as [x w'|] eqn:Hpoll; [|by left].
    right. by eapply step_poll.
  - destruct (step_goroutine i w) as [[w' evs]|] eqn:Hrun; [|by left].
    right. by eapply step_runner.
Qed.

Lemma world_inv_step (w w' : World) :
  world_inv w → sys_step w w' → world_inv w'.
Proof.
  intros Hinv [fuel path request resp w1 Hsub|token x w1 Hpoll|i w1 evs Hrun].
  - by eapply world_inv_submit.
  - by eapply world_inv_poll.
  - by eapply world_inv_runner.
Qed.

Lemma world_inv_move mv (w : World) : world_inv w → world_inv (do_move mv w).1.
Proof.
  intros Hinv. destruct (do_move_step mv w) as [[-> _]|Hstep]; [done|].
  by eapply world_inv_step.
Qed.

(** A submission puts nothing on a channel: the runner it starts is before
    its send, on a channel no runner had. *)
Lemma wire_inv_submit fuel path request (w w' : World) resp tr :
  world_inv w → wire_inv w tr →
  profile fuel path request w = Some (resp, w') →
  wire_inv w' tr.
Proof.
  intros [Hrun _ _ _ _] [Hown Hfree] Hsub.
  destruct (profile_effect _ _ _ _ _ _ Hsub) as (Hfresh & Hchans & Hcases).
  set (c := fresh (dom (chans w))) in *.
  assert (∀ k gk, goroutines w !! k = Some gk → go_pchan gk ≠ Some c) as Hnew.
  { intros k gk Hk Heq.
    destruct (Hrun k gk Hk) as (ck & csk & Hck & Hcsk & _). congruence. }
  assert (∀ k gk, goroutines w !! k = Some gk →
            ∃ ck csk, go_pchan gk = Some ck ∧ chans w' !! ck = Some csk ∧
              on_chan ck tr = wire_so_far gk ck csk) as Hold.
  { intros k gk Hk. destruct (Hown k gk Hk) as (ck & csk & Hck & Hcsk & Htr).
    exists ck, csk. split; [done|]. split; [|done].
    rewrite Hchans, lookup_insert_ne; [done|]. intros <-. by eapply Hnew. }
  destruct Hcases as [(_ & Hgo & _)|(id & _ & _ & _ & _ & Hgo)];
    (split; rewrite Hgo).
  - done.
  - done.
  - intros k gk [[_ Hk]|[_ <-]]%lookup_snoc_Some; [by eapply Hold|].
    exists c, ChEmpty. split; [done|].
    split; [by rewrite Hchans, lookup_insert_eq|].
    by rewrite (Hfree c Hnew).
  - intros c' Hc'. apply Hfree. intros k gk Hk.
    apply (Hc' k). by apply lookup_app_l_Some.
Qed.

(** A poll that returns has taken the result of a parked runner, or
    nothing. *)
Lemma wire_inv_poll token (w w' : World) x tr :
  world_inv w → wire_inv w tr →
  getProfile token w = Returned x w' →
  wire_inv w' (tr ++ received token w).
Proof.
  intros [Hrun Hrunc Hrec _ _] [Hown Hfree]. rewrite getProfile_eq.
  unfold received.
  destruct (entries (jobs w) !! ID token) as [j|] eqn:Hj;
    [|intros [= _ <-]; by rewrite app_nil_r].
  destruct (recv (pending j) w) as [[p w1]|] eqn:Hrecv; [|done].
  intros [= _ <-].
  destruct (Hrec _ _ Hj) as (i0 & g0 & c & Hg0 & Hc & Hpend & Haw).
  destruct (Hrun _ _ Hg0) as (c' & cs & Hc' & Hcs & Hwf).
  assert (c' = c) as -> by congruence.
  apply recv_Some in Hrecv as (n & cs' & Hn & Hcs' & Hcases).
  assert (n = c) as -> by congruence. assert (cs' = cs) as -> by congruence.
  rewrite Hpend, Hcs. unfold runner_wf in Hwf.
  destruct Haw as [Hpc|(r & Hpc & Hcsr)]; rewrite Hpc in Hwf.
  { destruct Hcases as [[-> _]|[-> _]]; done. }
  assert (cs = ChReady r) as -> by congruence.
  destruct Hcases as [[[= <-] ->]|[? _]]; [|done].
  destruct Hwf as [Hr _].
  split; cbn [jobs chans goroutines with_jobs with_chans jobs_del].
  - intros k gk Hk. destruct (Hown k gk Hk) as (ck & csk & Hck & Hcsk & Htr).
    destruct (decide (ck = c)) as [->|Hne].
    + assert (k = i0) as -> by (eapply Hrunc; [done..|congruence]).
      assert (gk = g0) as -> by congruence.
      assert (csk = ChReady r) as -> by congruence.
      exists c, ChEmpty. rewrite lookup_insert_eq.
      split; [done|]. split; [done|].
      rewrite on_chan_app, Htr, on_chan_same by done.
      unfold wire_so_far. rewrite Hpc. cbn. by rewrite <- Hr.
    + exists ck, csk. rewrite lookup_insert_ne by done.
      split; [done|]. split; [done|].
      by rewrite on_chan_app, on_chan_other, app_nil_r.
  - intros c0 Hc0. rewrite on_chan_app, (Hfree c0 Hc0), on_chan_other; [done|].
    cbn. intros <-. by eapply Hc0.
Qed.

(** A step of a runner puts on its channel what [runner_step] emits. *)
Lemma wire_inv_runner i (w w' : World) evs g c tr :
  world_inv w → wire_inv w tr →
  goroutines w !! i = Some g → go_pchan g = Some c →
  step_goroutine i w = Some (w', evs) →
  wire_inv w' (tr ++ (wire c <$> evs)).
Proof.
  intros [Hrun Hrunc _ _ _] [Hown Hfree] Hg Hc Hstep.
  apply step_goroutine_Some in Hstep
    as (g0 & c0 & cs & g' & cs' & Hg0 & Hc0 & Hcs & Hstep & ->).
  assert (g0 = g) as -> by congruence. assert (c0 = c) as -> by congruence.
  destruct (Hown i g Hg) as (c1 & cs1 & Hc1 & Hcs1 & Htr).
  assert (c1 = c) as -> by congruence. assert (cs1 = cs) as -> by congruence.
  destruct (runner_step_same _ _ _ _ _ Hstep) as (Hconfig & Htokens & Hc').
  assert (run_result g' = run_result g) as Hres
    by (unfold run_result; by rewrite Hconfig, Htokens).
  split; cbn [jobs chans goroutines with_goroutines with_chans].
  - intros k gk Hk. destruct (decide (k = i)) as [->|Hne].
    + apply list_lookup_insert_Some in Hk as [(_ & <- & _)|(? & _)]; [|done].
      exists c, cs'. rewrite Hc', Hc, lookup_insert_eq.
      split; [done|]. split; [done|].
      rewrite on_chan_app, Htr.
      unfold runner_step in Hstep. unfold wire_so_far. rewrite Hres.
      destruct (go_pc g) as [|r| |] eqn:Hpc, cs; simplify_eq/=;
        by rewrite ?on_chan_same, ?app_nil_r by done.
    + rewrite list_lookup_insert_ne in Hk by done.
      destruct (Hown k gk Hk) as (ck & csk & Hck & Hcsk & Htrk).
      assert (ck ≠ c) as Hckc.
      { intros ->. apply Hne. eapply Hrunc; [done..|]. congruence. }
      exists ck, csk. rewrite lookup_insert_ne by done.
      split; [done|]. split; [done|].
      rewrite on_chan_app, Htrk.
      unfold runner_step in Hstep.
      destruct (go_pc g), cs; simplify_eq/=;
        by rewrite ?on_chan_other, ?app_nil_r by done.
  - intros c2 Hc2.
    assert (c ≠ c2) as Hne.
    { intros <-. apply (Hc2 i g'); [|congruence].
      apply list_lookup_insert_eq. by eapply lookup_lt_Some. }
    rewrite on_chan_app, Hfree.
    + unfold runner_step in Hstep.
      destruct (go_pc g), cs; simplify_eq/=;
        by rewrite ?on_chan_other by done.
    + intros k gk Hk Heq. destruct (decide (k = i)) as [->|Hki].
      * assert (gk = g) as -> by congruence. congruence.
      * apply (Hc2 k gk); [|done]. by rewrite list_lookup_insert_ne.
Qed.

Lemma wire_inv_move mv (w : World) tr :
  world_inv w → wire_inv w tr →
  wire_inv (do_move mv w).1 (tr ++ (do_move mv w).2).
Proof.
  intros Hinv Hwire.
  destruct mv as [fuel path request|token|i]; cbn [do_move].
  - destruct (profile fuel path request w) as [[resp w']|] eqn:Hsub;
      cbn [fst snd]; rewrite app_nil_r; [|done].
    by eapply wire_inv_submit.
  - destruct (getProfile token w) as [x w'|] eqn:Hpoll;
      cbn [fst snd]; [|by rewrite app_nil_r].
    by eapply wire_inv_poll.
  - destruct (step_goroutine i w) as [[w' evs]|] eqn:Hrun;
      cbn [fst snd]; [|by rewrite app_nil_r].
    pose proof Hrun as Hrun'.
    apply step_goroutine_Some in Hrun'
      as (g & c & cs & g' & cs' & Hg & Hc & _ & _ & _).
    rewrite Hg. cbn [mbind option_bind]. rewrite Hc.
    by eapply wire_inv_runner.
Qed.

Lemma wire_inv_zero : wire_inv World_zero [].
Proof. split; [done|]. intros c _. done. Qed.

(** Both invariants hold all along a run. *)
Lemma run_from_inv ms : ∀ st,
  world_inv st.1 → wire_inv st.1 st.2 →
  world_inv (run_from st ms).1 ∧ wire_inv (run_from st ms).1 (run_from st ms).2.
Proof.
  induction ms as [|mv ms IH]; intros st Hinv Hwire; [done|].
  rewrite run_from_cons. apply IH; cbn [fst snd].
  - by apply world_inv_move.
  - by apply wire_inv_move.
Qed.

(** A runner left behind stays so along a run, and its channel carries the
    result it placed and nothing else. *)
Lemma orphaned_run ms : ∀ st i c r,
  world_inv st.1 → wire_inv st.1 st.2 → orphaned st.1 i c r →
  orphaned (run_from st ms).1 i c r ∧ on_chan c (run_from st ms).2 = [WSend c r].
Proof.
  induction ms as [|mv ms IH]; intros st i c r Hinv Hwire Horph.
  - split; [done|]. cbn.
    destruct Horph as ((g & Hg & Hc & Hpc) & Hcs & _).
    destruct Hwire as [Hown _].
    destruct (Hown i g Hg) as (c1 & cs1 & Hc1 & Hcs1 & Htr).
    assert (c1 = c) as -> by congruence.
    assert (cs1 = ChReady r) as -> by congruence.
    rewrite Htr. unfold wire_so_far. rewrite Hpc.
    destruct Hinv as [Hrun _ _ _ _].
    destruct (Hrun i g Hg) as (c2 & cs2 & Hc2 & Hcs2 & Hwf).
    assert (c2 = c) as -> by congruence.
    assert (cs2 = ChReady r) as -> by congruence.
    unfold runner_wf in Hwf. rewrite Hpc in Hwf. destruct Hwf as [-> _]. done.
  - rewrite run_from_cons. apply IH; cbn [fst snd].
    + by apply world_inv_move.
    + by apply wire_inv_move.
    + destruct (do_move_step mv st.1) as [[-> _]|Hstep]; [done|].
      by eapply orphaned_step.
Qed.

(** From the submission to the close: the runner of an admitted job is
    stepped to its send, the poll of the token takes the result, and two
    more steps make the runner close the channel and return. *)
Lemma run_complete fuel path request (w w1 : World) t tr :
  profile fuel path request w = Some (RespToken t, w1) →
  let i := length (goroutines w) in
  let g := runProfiler path (Request_Tokens request) in
  ∃ c w4,
    pending <$> entries (jobs w1) !! ID t = Some (Some c) ∧
    goroutines w1 !! i = Some (g (Some c)) ∧
    run_from (w, tr)
      [MSubmit fuel path request; MRun i; MPoll t; MRun i; MRun i] =
      (w4, tr ++ [WSend c (run_result (g (Some c)));
                  WRecv c (run_result (g (Some c))); WClose c]) ∧
    goroutines w4 !! i = Some (at_pc (g (Some c)) PcExit) ∧
    chans w4 !! c = Some ChClosed.
Proof.
  intros Hprofile i g.
  destruct (profile_admitted _ _ _ _ _ _ Hprofile) as (c & t0 & Hcs & Hj & Hgo).
  assert (goroutines w1 !! i = Some (g (Some c))) as Hg.
  { rewrite Hgo. apply lookup_snoc_Some. by right. }
  assert (i < length (goroutines w1)) as Hi by by eapply lookup_lt_Some.
  set (r := run_result (g (Some c))).
  set (w2 := with_goroutines (<[i := at_pc (g (Some c)) (PcParked r)]>
                                (goroutines w1))
               (with_chans (<[c := ChReady r]> (chans w1)) w1)).
  set (w3 := jobs_del (ID t) (with_chans (<[c := ChEmpty]> (chans w2)) w2)).
  set (w4 := with_goroutines (<[i := at_pc (g (Some c)) PcClose]>
                                (goroutines w3))
               (with_chans (<[c := ChEmpty]> (chans w3)) w3)).
  set (w5 := with_goroutines (<[i := at_pc (g (Some c)) PcExit]>
                                (goroutines w4))
               (with_chans (<[c := ChClosed]> (chans w4)) w4)).
  assert (step_goroutine i w1 = Some (w2, [EvSend r])) as Hstep1.
  { unfold step_goroutine. rewrite Hg. cbn [go_pchan g runProfiler].
    by rewrite Hcs. }
  assert (goroutines w2 !! i = Some (at_pc (g (Some c)) (PcParked r))) as Hg2
    by by apply list_lookup_insert_eq.
  assert (chans w2 !! c = Some (ChReady r)) as Hcs2 by apply lookup_insert_eq.
  assert (∃ x, getProfile t w2 = Returned x w3) as [x Hpoll].
  { rewrite getProfile_eq. cbn [jobs w2 with_goroutines with_chans].
    rewrite Hj. cbn [pending recv]. rewrite Hcs2. cbn [receiver_step].
    by eexists. }
  assert (received t w2 = [WRecv c r]) as Hrecv.
  { unfold received. cbn [jobs w2 with_goroutines with_chans].
    rewrite Hj. cbn [pending]. by rewrite Hcs2. }
  assert (goroutines w3 !! i = Some (at_pc (g (Some c)) (PcParked r))) as Hg3
    by done.
  assert (chans w3 !! c = Some ChEmpty) as Hcs3 by apply lookup_insert_eq.
  assert (step_goroutine i w3 = Some (w4, [])) as Hstep3.
  { unfold step_goroutine. rewrite Hg3. cbn [go_pchan at_pc g runProfiler].
    by rewrite Hcs3. }
  assert (goroutines w4 !! i = Some (at_pc (g (Some c)) PcClose)) as Hg4.
  { apply list_lookup_insert_eq. cbn. by rewrite length_insert. }
  assert (chans w4 !! c = Some ChEmpty) as Hcs4 by apply lookup_insert_eq.
  assert (step_goroutine i w4 = Some (w5, [EvClose])) as Hstep4.
  { unfold step_goroutine. rewrite Hg4. cbn [go_pchan at_pc g runProfiler].
    by rewrite Hcs4. }
  exists c, w5. split; [by rewrite Hj|]. split; [done|]. split; [|split].
  - rewrite !run_from_cons. cbn [fst snd do_move].
    rewrite Hprofile. cbn [fst snd]. rewrite Hstep1, Hg. cbn [fst snd].
    rewrite Hpoll, Hrecv. cbn [fst snd]. rewrite Hstep3, Hg3. cbn [fst snd].
    rewrite Hstep4, Hg4. cbn. by rewrite !app_nil_r, <- !app_assoc.
  - apply list_lookup_insert_eq. cbn. by rewrite !length_insert.
  - apply lookup_insert_eq.
Qed.


End Gofilerd.

(** * The model at work *)

Arguments Returned {_ _ A} a w.
Arguments Blocked {_ _ A}.

(** The streams of the scenario, a capacity of one job and a timeout of
    one minute; profiles and input tokens are strings. *)
Abbreviation demo_profile maxJobs :=
  (@profile string string maxJobs 1%N demo_rand demo_clock).
Abbreviation demo_getProfile := (@getProfile string "" string).
Abbreviation demo_submitted maxJobs :=
  (@scenario_submitted string string maxJobs 1%N demo_rand demo_clock).
Abbreviation demo_offered :=
  (@scenario_offered string string 1%N 1%N demo_rand demo_clock demo_Run).
Abbreviation demo_step := (@step_goroutine string string demo_Run).
Abbreviation T1 := (mkToken "aaaaaaaaaaaaaaaa").
Abbreviation T2 := (mkToken "bbbbbbbbbbbbbbbb").

(** C1, at a job that has just been admitted: its runner has not reached
    the send, and the poll parks in the receive instead of returning the
    answer of [notDoneYet] ([Done = false]) at once. *)
Theorem getProfile_blocks_on_running_job :
  demo_profile 1%N 1 "cfg" scenario_request World_zero =
    Some (RespToken T1, demo_submitted 1%N) ∧
  (∃ j, entries (jobs (demo_submitted 1%N)) !! ID T1 = Some j ∧
        pending j = Some 0 ∧
        chans (demo_submitted 1%N) !! 0 = Some ChEmpty) ∧
  demo_getProfile T1 (demo_submitted 1%N) = Blocked ∧
  Profile_Done <$>
    (match (@notDoneYet string "" string demo_rand T1 (demo_submitted 1%N)).1
     with
     | RespProfile p => Some p
     | _ => None
     end) = Some false.
Proof.
  split; [by vm_compute|]. split; [|split; by vm_compute].
  eexists. by vm_compute.
Qed.

(** One job fits: the table stays within one entry over a run of the three
    operations, and the second [put] on the full table is turned away. *)
Lemma capacity_invariant_witness :
  (len (run_ops 1 1 [OpPut "eng" "T1" (Some 0%nat) 0%Z;
                     OpPut "eng" "T2" (Some 1%nat) 1%Z;
                     OpDel "T1";
                     OpPut "eng" "T3" (Some 2%nat) 2%Z;
                     OpClean 3%Z] jobs_zero) ≤ 1)%Z ∧
  (put 1 "eng" "T2" (Some 1%nat) 1%Z
     (run_ops 1 1 [OpPut "eng" "T1" (Some 0%nat) 0%Z] jobs_zero)).1 = putJobFull.
Proof.
  destruct (capacity_invariant 1 1) as [Hinv Hfull]. split.
  - apply Hinv.
  - apply Hfull. vm_compute. reflexivity.
Defined.

(** A full table asked to admit a token it already holds. *)
Lemma put_full_before_unique_witness :
  (put 1 "eng" "T1" (Some 1%nat) 1%Z
     (run_ops 1 1 [OpPut "eng" "T1" (Some 0%nat) 0%Z] jobs_zero)).1 = putJobFull.
Proof.
  apply (put_full_before_unique 1). vm_compute. discriminate.
Defined.

(** A timeout of one minute, a job started at 0 and one at 100 ns, the
    sweep 50 ns after the first minute: the first job goes, the second
    stays. *)
Lemma clean_spec_witness :
  let jm := run_ops 10 1 [OpPut "eng" "old" (Some 0%nat) 0%Z;
                          OpPut "deu" "new" (Some 1%nat) 100%Z] jobs_zero in
  entries (clean 1 60000000050%Z jm).2 !! "old" = None ∧
  entries (clean 1 60000000050%Z jm).2 !! "new" =
    Some (mkJob (Some 1%nat) "deu" 100%Z).
Proof.
  split.
  - apply (clean_spec 1 60000000050%Z _ "old" (mkJob (Some 0%nat) "eng" 0%Z)).
    + vm_compute. reflexivity.
    + vm_compute. reflexivity.
  - apply (clean_spec 1 60000000050%Z _ "new" (mkJob (Some 1%nat) "deu" 100%Z)).
    + vm_compute. reflexivity.
    + vm_compute. discriminate.
Defined.

(** The job of the scenario, polled once its runner is parked in the
    send. *)
Lemma poll_completed_witness :
  ∃ w',
    demo_getProfile T1 demo_offered =
      Returned (RespProfile (mkProfile "P" T1 "eng" "done" true)) w' ∧
    entries (jobs w') = ∅ ∧
    @polls string "" string 3 T1 w' =
      replicate 3 (Returned (RespStatus http_StatusNotFound) w').
Proof.
  destruct (poll_completed "" (GToken := string) T1 demo_offered
              (mkJob (Some 0%nat) "eng" 1%Z) 0 (mkResult "P" None))
    as (w' & Hpoll & Hentries & Hpolls).
  - vm_compute. reflexivity.
  - reflexivity.
  - vm_compute. reflexivity.
  - exists w'. split; [exact Hpoll|]. split; [|apply Hpolls].
    rewrite Hentries. vm_compute. reflexivity.
Defined.

Abbreviation twice_profile :=
  (@profile string string 3%N 1%N demo_rand_twice demo_clock).
Abbreviation twice_submitted :=
  (@scenario_submitted string string 3%N 1%N demo_rand_twice demo_clock).


Abbreviation stuck_profile :=
  (@profile string string 3%N 1%N demo_rand_stuck demo_clock).
Abbreviation stuck_submitted :=
  (@scenario_submitted string string 3%N 1%N demo_rand_stuck demo_clock).


(** The scenario of the specification on the code, with room for one job:
    a second submission is turned away, the poll of the running job parks,
    and once the runner has reached its send the poll delivers, empties the
    table and makes room for the next submission. *)
Example end_to_end :
  let submit := demo_profile 1%N 1 "cfg" scenario_request in
  let wA := demo_submitted 1%N in
  let wB := @after string string (submit wA) in
  let wR := (default (wB, []) (demo_step 0 wB)).1 in
  fst <$> submit wA = Some (RespStatus http_StatusServiceUnavailable) ∧
  demo_getProfile T1 wB = Blocked ∧
  match demo_getProfile T1 wR with
  | Returned x wD =>
      x = RespProfile (mkProfile "P" T1 "eng" "done" true) ∧
      size (entries (jobs wD)) = 0 ∧
      fst <$> submit wD = Some (RespToken T2)
  | Blocked => False
  end.
Proof. vm_compute. repeat split; reflexivity. Qed.

(** * The further properties at work *)

Lemma del_after_put_witness :
  entries (del "T1" (put 1 "eng" "T1" (Some 0) 0%Z jobs_zero).2).2 =
    entries jobs_zero ∧
  (get "T1" (del "T1" (put 1 "eng" "T1" (Some 0) 0%Z jobs_zero).2).2).1 =
    (zero_job, false).
Proof. apply (del_after_put 1). vm_compute. reflexivity. Defined.

Lemma clean_clean_witness :
  let jm := run_ops 10 1 [OpPut "eng" "old" (Some 0) 0%Z;
                          OpPut "deu" "new" (Some 1) 100%Z] jobs_zero in
  entries (clean 1 60000000150%Z (clean 1 60000000050%Z jm).2).2 =
    entries (clean 1 60000000150%Z jm).2.
Proof. apply (clean_clean 1). vm_compute. discriminate. Defined.

Abbreviation demo_polled := (@polled string "" string).
Abbreviation demo_done := (RespProfile (mkProfile "P" T1 "eng" "done" true)).

Abbreviation pair_ran :=
  (@stepped string string demo_Run 0
     (@after string string
        (@profile string string 2%N 1%N demo_rand_fresh demo_clock
           1 "cfg" scenario_request
           (@scenario_submitted string string 2%N 1%N demo_rand_fresh
              demo_clock)))).

(** Room for two jobs, both admitted, the runner of the first parked in its
    send: the poll of the first token leaves the record, the channel and
    the runner of the second as they were. *)
Lemma getProfile_frame_witness :
  entries (jobs pair_ran) !! ID T1 = Some (mkJob (Some 0) "eng" 1%Z) ∧
  chans pair_ran !! 0 = Some (ChReady (mkResult "P" None)) ∧
  entries (jobs (demo_polled T1 pair_ran)) !! ID T1 = None ∧
  chans (demo_polled T1 pair_ran) !! 0 = Some ChEmpty ∧
  goroutines (demo_polled T1 pair_ran) =
    [mkGo "cfg" [] (Some 0) (PcParked (mkResult "P" None));
     mkGo "cfg" [] (Some 1) PcRun] ∧
  entries (jobs (demo_polled T1 pair_ran)) !! ID T2 =
    Some (mkJob (Some 1) "eng" 3%Z) ∧
  chans (demo_polled T1 pair_ran) !! 1 = Some ChEmpty.
Proof.
  destruct (getProfile_frame "" (GToken := string) T1 pair_ran
              (demo_polled T1 pair_ran) demo_done)
    as (Hgo & _ & _ & Hrec & Hchan).
  - vm_compute. reflexivity.
  - split; [vm_compute; reflexivity|]. split; [vm_compute; reflexivity|].
    split; [vm_compute; reflexivity|]. split; [vm_compute; reflexivity|].
    split; [|split].
    + rewrite Hgo. vm_compute. reflexivity.
    + rewrite Hrec by discriminate. vm_compute. reflexivity.
    + rewrite Hchan by (vm_compute; discriminate). vm_compute. reflexivity.
Defined.

Abbreviation demo_closed :=
  (@mkWorld string string
     (mkJobMap (Some {["T" := mkJob (Some 0) "eng" 0%Z]}))
     {[0 := ChClosed]} [] 0 0).

Lemma getProfile_closed_channel_witness :
  demo_getProfile (mkToken "T") demo_closed =
    Returned
      (RespProfile (mkProfile "" (mkToken "T") "eng" "done" true))
      (jobs_del "T" demo_closed).
Proof.
  apply (getProfile_closed_channel "" (GToken := string) (mkToken "T")
           demo_closed (mkJob (Some 0) "eng" 0%Z) 0).
  - vm_compute. reflexivity.
  - reflexivity.
  - vm_compute. reflexivity.
Defined.

Abbreviation demo_reachable :=
  (@reachable string "" string 1%N 1%N demo_rand demo_clock demo_Run).

Lemma demo_offered_reachable : demo_reachable demo_offered.
Proof.
  unfold reachable. eapply rtc_l.
  { apply (step_submit "" 1 1 demo_rand demo_clock demo_Run World_zero
             1 "cfg" scenario_request (RespToken T1) (demo_submitted 1%N)).
    vm_compute. reflexivity. }
  eapply rtc_l; [|apply rtc_refl].
  apply (step_runner "" 1 1 demo_rand demo_clock demo_Run (demo_submitted 1%N)
           0 demo_offered [EvSend (mkResult "P" None)]).
  vm_compute. reflexivity.
Qed.

Lemma runner_never_stuck_witness :
  ∃ c cs,
    Some 0 = Some c ∧ chans demo_offered !! c = Some cs ∧
    cs = ChReady (mkResult "P" None).
Proof.
  destruct (runner_never_stuck "" (GToken := string) 1 1 demo_rand demo_clock
              demo_Run demo_offered 0
              (mkGo "cfg" [] (Some 0) (PcParked (mkResult "P" None)))
              demo_offered_reachable)
    as (c & cs & Hc & Hcs & _ & Hstuck).
  - vm_compute. reflexivity.
  - exists c, cs. split; [exact Hc|]. split; [exact Hcs|].
    destruct Hstuck as [[Hexit _]|[_ Hready]].
    + vm_compute. reflexivity.
    + discriminate Hexit.
    + exact Hready.
Defined.

Lemma poll_delivers_runner_result_witness :
  demo_done = RespStatus http_StatusNotFound ∨
  ∃ j i g,
    entries (jobs demo_offered) !! ID T1 = Some j ∧
    goroutines demo_offered !! i = Some g ∧
    go_pchan g = pending j ∧
    demo_done =
      match demo_Run (go_config g) (go_tokens g) with
      | (_, Some e) => RespError e
      | (p, None) => RespProfile (mkProfile p T1 (language j) "done" true)
      end.
Proof.
  apply (poll_delivers_runner_result "" (GToken := string) 1 1 demo_rand
           demo_clock demo_Run T1 demo_offered (demo_polled T1 demo_offered)
           demo_done demo_offered_reachable).
  vm_compute. reflexivity.
Defined.

(** A timeout of one minute under the slow clock: the job of a first
    submission has outlived it when the second submission sweeps. *)
Abbreviation slow_profile :=
  (@profile string string 1%N 1%N demo_rand_fresh demo_clock_slow).
Abbreviation slow_submitted :=
  (@scenario_submitted string string 1%N 1%N demo_rand_fresh demo_clock_slow).
Abbreviation slow_offered :=
  (@stepped string string demo_Run 0 slow_submitted).
Abbreviation slow_swept :=
  (@after string string (slow_profile 1 "cfg" scenario_request slow_offered)).
Abbreviation slow_step :=
  (@sys_step string "" string 1%N 1%N demo_rand_fresh demo_clock_slow demo_Run).

Lemma swept_then_not_found_witness :
  demo_getProfile T1 slow_swept =
    Returned (RespStatus http_StatusNotFound) slow_swept.
Proof.
  apply (swept_then_not_found "" (GToken := string) 1 1 demo_rand_fresh
           demo_clock_slow 1 "cfg" scenario_request slow_offered slow_swept
           (RespToken T2) T1 (mkJob (Some 0) "eng" 100000000000%Z)).
  - vm_compute. reflexivity.
  - vm_compute. reflexivity.
  - vm_compute. reflexivity.
  - discriminate.
Defined.

Lemma slow_swept_reachable :
  @reachable string "" string 1%N 1%N demo_rand_fresh demo_clock_slow demo_Run
    slow_swept.
Proof.
  unfold reachable. eapply rtc_l.
  { apply (step_submit "" 1 1 demo_rand_fresh demo_clock_slow demo_Run
             World_zero 1 "cfg" scenario_request (RespToken T1) slow_submitted).
    vm_compute. reflexivity. }
  eapply rtc_l.
  { apply (step_runner "" 1 1 demo_rand_fresh demo_clock_slow demo_Run
             slow_submitted 0 slow_offered [EvSend (mkResult "P" None)]).
    vm_compute. reflexivity. }
  eapply rtc_l; [|apply rtc_refl].
  apply (step_submit "" 1 1 demo_rand_fresh demo_clock_slow demo_Run
           slow_offered 1 "cfg" scenario_request (RespToken T2) slow_swept).
  vm_compute. reflexivity.
Qed.

Lemma slow_swept_orphaned :
  @orphaned string string slow_swept 0 0 (mkResult "P" None).
Proof.
  split; [|split].
  - eexists. split; [vm_compute; reflexivity|]. split; reflexivity.
  - vm_compute. reflexivity.
  - intros token j.
    assert (entries (jobs slow_swept) =
              {[ID T2 := mkJob (Some 1) "eng" 300000000000%Z]}) as ->
      by (vm_compute; reflexivity).
    intros [_ <-]%lookup_singleton_Some. discriminate.
Qed.

(** The runner of the swept job is still parked once the second job has
    run and been polled. *)
Lemma orphaned_forever_witness :
  @orphaned string string
    (demo_polled T2 (@stepped string string demo_Run 1 slow_swept))
    0 0 (mkResult "P" None).
Proof.
  apply (orphaned_forever "" (GToken := string) 1 1 demo_rand_fresh
           demo_clock_slow demo_Run slow_swept _ 0 0 (mkResult "P" None)
           slow_swept_reachable slow_swept_orphaned).
  eapply rtc_l.
  { apply (step_runner "" 1 1 demo_rand_fresh demo_clock_slow demo_Run
             slow_swept 1 (@stepped string string demo_Run 1 slow_swept)
             [EvSend (mkResult "P" None)]).
    vm_compute. reflexivity. }
  eapply rtc_l; [|apply rtc_refl].
  apply (step_poll "" 1 1 demo_rand_fresh demo_clock_slow demo_Run _ T2
           (RespProfile (mkProfile "P" T2 "eng" "done" true))).
  vm_compute. reflexivity.
Defined.

(** Collaborators of the HTTP layer to run the routes on: bodies are read
    as strings, the body [{}] decodes to the request of the scenario, and
    [eng] is the only language the backend knows. *)
Abbreviation demo_gunzip := (λ body : string, Some body).
Abbreviation demo_Decode :=
  (λ body : string,
     if decide (body = "{}")
     then Some (mkRequest (GToken := string) "eng" [])
     else None).
Abbreviation demo_FindLanguage :=
  (λ backend lang : string,
     if decide (lang = "eng")
     then (mkLanguageConfiguration "eng" "cfg", @None error)
     else (mkLanguageConfiguration "" "", Some "not found")).
Abbreviation demo_Encode := (λ _ : @any string, Some "json").
Abbreviation demo_gzip := (λ data : string, data).
Abbreviation demo_route :=
  (@route_profile string "" string 1%N 1%N demo_rand demo_clock string
     demo_gunzip demo_Decode "backend" demo_FindLanguage "not found"
     demo_Encode demo_gzip).
Abbreviation demo_post :=
  (mkHttpRequest "POST" ∅
     {["Content-Type" := ["application/json; charset=utf-8"]]} "{}").
Abbreviation demo_get id :=
  (mkHttpRequest "GET" {["token" := [id]]} ∅ "").

Lemma route_profile_answer_witness :
  Method demo_post = http_MethodPost ∧
  is_Some (entries (jobs (demo_submitted 1%N)) !! ID T1).
Proof.
  destruct (route_profile_answer "" (GToken := string) 1 1 demo_rand demo_clock
              demo_gunzip demo_Decode "backend" demo_FindLanguage
              "not found" demo_Encode demo_gzip 1 [] demo_post World_zero
              (demo_submitted 1%N)
              (sendResponse demo_Encode demo_gzip [] demo_post
                 (AnyResponse (RespToken T1))))
    as [(code & Hrw & _)|[(t & Hrw & Hpost & _ & Hin)|(p & Hrw & _)]].
  - vm_compute. reflexivity.
  - vm_compute in Hrw. discriminate Hrw.
  - split; [exact Hpost|]. vm_compute. eexists. reflexivity.
  - split; vm_compute; [reflexivity|eexists; reflexivity].
Defined.

Lemma route_profile_rejected_unchanged_witness :
  match demo_route 1 [] (demo_get "nobody") (demo_submitted 1%N) with
  | Some (Returned _ w') => w' = demo_submitted 1%N
  | _ => False
  end.
Proof.
  assert (demo_route 1 [] (demo_get "nobody") (demo_submitted 1%N) =
            Some (Returned ([] ++ [http_Error "" 404%Z]) (demo_submitted 1%N)))
    as Hroute by (vm_compute; reflexivity).
  rewrite Hroute.
  apply (route_profile_rejected_unchanged "" (GToken := string) 1 1 demo_rand
           demo_clock demo_gunzip demo_Decode "backend"
           demo_FindLanguage "not found" demo_Encode demo_gzip 1 []
           (demo_get "nobody") (demo_submitted 1%N) (demo_submitted 1%N)
           "" 404%Z Hroute).
  apply list_elem_of_In. cbn. right. left. reflexivity.
Defined.

Lemma issued_token_polled_parks_witness :
  demo_route 0 [] (demo_get (ID T1)) (demo_submitted 1%N) = Some Blocked.
Proof.
  apply (issued_token_polled_parks "" (GToken := string) 1 1 demo_rand
           demo_clock demo_gunzip demo_Decode "backend"
           demo_FindLanguage "not found" demo_Encode demo_gzip 1 "cfg"
           scenario_request World_zero (demo_submitted 1%N) T1 0 []
           (demo_get (ID T1))).
  - vm_compute. reflexivity.
  - reflexivity.
  - vm_compute. reflexivity.
Defined.

Lemma submit_run_poll_witness :
  ∃ w2 w3 r,
    demo_step 0 (demo_submitted 1%N) = Some (w2, [EvSend r]) ∧
    demo_getProfile T1 w2 = Returned demo_done w3 ∧
    entries (jobs w3) !! ID T1 = None.
Proof.
  apply (submit_run_poll "" (GToken := string) 1 1 demo_rand demo_clock
           demo_Run 1 "cfg" scenario_request World_zero (demo_submitted 1%N)
           T1).
  vm_compute. reflexivity.
Defined.


(** Two submissions, one sweep: the runners of the two jobs have a channel
    each. *)
Lemma channels_not_shared_witness :
  (∀ token token' j j',
     entries (jobs slow_swept) !! token = Some j →
     entries (jobs slow_swept) !! token' = Some j' →
     pending j = pending j' → token = token') ∧
  (∀ i i' g g',
     goroutines slow_swept !! i = Some g →
     goroutines slow_swept !! i' = Some g' →
     go_pchan g = go_pchan g' → i = i').
Proof.
  exact (channels_not_shared "" (GToken := string) 1 1 demo_rand_fresh
           demo_clock_slow demo_Run slow_swept slow_swept_reachable).
Defined.

(** * What goes over the channels, at work *)

Abbreviation pair_run_moves :=
  (@run_moves string "" string 2%N 1%N demo_rand_fresh demo_clock demo_Run).
Abbreviation pair_moves :=
  [MSubmit (GToken := string) 1 "cfg" scenario_request; MRun 0].


Abbreviation slow_run_moves :=
  (@run_moves string "" string 1%N 1%N demo_rand_fresh demo_clock_slow
     demo_Run).
Abbreviation slow_moves :=
  [MSubmit (GToken := string) 1 "cfg" scenario_request; MRun 0;
   MSubmit 1 "cfg" scenario_request].

